(** * batch-add-getters.py: adding JavaBean-style getters to Java event classes

    A shallow embedding of [src/batch-add-getters.py] and the proofs of its
    specification.

    Text.  A Python [str] is a sequence of Unicode code points: [list N].

    Files.  The script opens its files in text mode, as UTF-8.  A file is
    given by the code points that its bytes decode to, with its line ends
    as they stand in it, or is marked as not being UTF-8.  Reading
    translates [\r\n] and [\r] to [\n], writing sends each [\n] out as the
    line separator of the platform, and opening a file may be refused.

    Unicode.  [\s], [\w], [str.strip] and [str.upper] consult CPython's
    Unicode database for code points from 128 on.  That database is not
    part of the repository: it is the record [unicode_db], a variable of
    the development, and every theorem holds for all its values.  Below
    128 the classes are written out. *)

From Stdlib Require Import NArith List Ascii String Lia DecimalString.
From stdpp Require Import base list gmap.

Local Open Scope N_scope.
Local Open Scope list_scope.

(** ** Text *)

Abbreviation str := (list N) (only parsing).

(** The code point of an ASCII character and the text of an ASCII literal. *)
Definition ch (a : ascii) : N := N_of_ascii a.
Definition lit (s : string) : str := List.map N_of_ascii (list_ascii_of_string s).

(** The newline character, ['\n']. *)
Definition NL : N := 10.

Record unicode_db := {
  db_isspace : N -> bool;       (* Py_UNICODE_ISSPACE, from 128 on *)
  db_isalnum : N -> bool;       (* Py_UNICODE_ISALNUM, from 128 on *)
  db_upper : N -> list N        (* str.upper of one character, from 128 on *)
}.

(** A database with no space, no letter and no case above ASCII; on ASCII
    text every database behaves as this one. *)
Definition ascii_db : unicode_db :=
  {| db_isspace := fun _ => false;
     db_isalnum := fun _ => false;
     db_upper := fun c => [c] |}.

Fixpoint str_eqb (a b : str) : bool :=
  match a, b with
  | [], [] => true
  | x :: a', y :: b' => (x =? y) && str_eqb a' b'
  | _, _ => false
  end.

(** [s.startswith(p)] *)
Fixpoint startswith (s p : str) {struct p} : bool :=
  match p, s with
  | [], _ => true
  | x :: p', y :: s' => (x =? y) && startswith s' p'
  | _ :: _, [] => false
  end.

(** [needle in hay] *)
Fixpoint contains (needle hay : str) : bool :=
  startswith hay needle ||
  match hay with
  | [] => false
  | _ :: hay' => contains needle hay'
  end.

(** [s.split('\n')]: never empty; a trailing newline gives a last empty
    line. *)
Fixpoint split_nl (s : str) : list str :=
  match s with
  | [] => [[]]
  | c :: s' =>
      if c =? NL then [] :: split_nl s'
      else match split_nl s' with
           | l :: ls => (c :: l) :: ls
           | [] => [[c]]
           end
  end.

(** ['\n'.join(ls)] *)
Fixpoint join_nl (ls : list str) : str :=
  match ls with
  | [] => []
  | [l] => l
  | l :: ls' => l ++ NL :: join_nl ls'
  end.

(** Each line followed by a newline: what [join_nl] puts before the
    lines that follow. *)
Definition terminated (ls : list str) : str :=
  flat_map (fun l => l ++ [NL]) ls.

(** [ls.insert(i, x)] for [0 <= i]: beyond the end it appends. *)
Definition list_insert_at {A} (i : nat) (x : A) (ls : list A) : list A :=
  take i ls ++ x :: drop i ls.

(** ** Regular expressions

    The fragment of Python's [re] that the accessor pattern uses, with the
    backtracking semantics of the [sre] engine: alternatives are tried in
    priority order and the first complete match wins.  A greedy repetition
    of a character class tries the longest run first and gives back one
    character at a time; a greedy optional group tries its body first.  *)

Inductive regex : Type :=
| Eps                                  (* the empty pattern *)
| Chr (c : N)                          (* a literal character *)
| Rep (lo : nat) (p : N -> bool)       (* a class repeated, greedy: [*] is [Rep 0], [+] is [Rep 1] *)
| Opt (r : regex)                      (* [(?:r)?] *)
| Cat (r1 r2 : regex)                  (* [r1 r2] *)
| Grp (i : nat) (r : regex).           (* capturing group number [i] *)

(** The text of each group; a group that did not take part is empty. *)
Abbreviation captures := (nat -> list N) (only parsing).

Definition no_groups : captures := fun _ => [].

Definition set_group (i : nat) (s : str) (caps : captures) : captures :=
  fun j => if Nat.eqb j i then s else caps j.

Fixpoint rep_match {A} (p : N -> bool) (lo : nat) (inp : str)
    (k : str -> option A) : option A :=
  let stop := match lo with O => k inp | S _ => None end in
  match inp with
  | c :: rest =>
      if p c then
        match rep_match p (pred lo) rest k with
        | Some a => Some a
        | None => stop
        end
      else stop
  | [] => stop
  end.

Fixpoint rx_match {A} (r : regex) (inp : str) (caps : captures)
    (k : str -> captures -> option A) : option A :=
  match r with
  | Eps => k inp caps
  | Chr c =>
      match inp with
      | x :: rest => if x =? c then k rest caps else None
      | [] => None
      end
  | Rep lo p => rep_match p lo inp (fun rest => k rest caps)
  | Opt r1 =>
      match rx_match r1 inp caps k with
      | Some a => Some a
      | None => k inp caps
      end
  | Cat r1 r2 =>
      rx_match r1 inp caps (fun rest caps' => rx_match r2 rest caps' k)
  | Grp i r1 =>
      rx_match r1 inp caps (fun rest caps' =>
        k rest (set_group i (take (length inp - length rest) inp) caps'))
  end.

(** [pattern.match] at the head of [inp]: the text left after the match and
    the groups. *)
Definition match_at (r : regex) (inp : str) : option (str * (nat -> list N)) :=
  rx_match r inp no_groups (fun rest caps => Some (rest, caps)).

Definition seq_of (rs : list regex) : regex := fold_right Cat Eps rs.
Definition chars (s : string) : regex := seq_of (List.map Chr (lit s)).

(** [re.findall] for a pattern with three groups whose matches are never
    empty: the leftmost match from each position on, the search resuming
    where the match ended.  [skip] counts the characters still covered by
    the previous match. *)
Fixpoint scan (r : regex) (inp : str) (skip : nat) : list (str * str * str) :=
  match inp with
  | [] => []
  | _ :: rest =>
      match skip with
      | S n => scan r rest n
      | O =>
          match match_at r inp with
          | Some (rest', caps) =>
              (caps 1%nat, caps 2%nat, caps 3%nat)
                :: scan r rest (length rest - length rest')
          | None => scan r rest 0
          end
      end
  end.

Definition findall (r : regex) (s : str) : list (str * str * str) := scan r s 0.

(** What it means for [r] to match exactly the text [s], taking the groups
    from [c] to [c']: the matches that the engine can return. *)
Fixpoint rx_lang (r : regex) (s : str) (c c' : captures) : Prop :=
  match r with
  | Eps => s = [] /\ c' = c
  | Chr x => s = [x] /\ c' = c
  | Rep lo p => forallb p s = true /\ (lo <= length s)%nat /\ c' = c
  | Opt r1 => rx_lang r1 s c c' \/ (s = [] /\ c' = c)
  | Cat r1 r2 =>
      exists s1 s2 c1, s = s1 ++ s2 /\ rx_lang r1 s1 c c1 /\ rx_lang r2 s2 c1 c'
  | Grp i r1 => exists c1, rx_lang r1 s c c1 /\ c' = set_group i s c1
  end.

(** ** Exceptions *)

Inductive exn : Type :=
| IndexError
| FileNotFoundError (path : str)
| UnicodeDecodeError (path : str)
| OSError (path : str).

Inductive result (A : Type) : Type :=
| Ok (a : A)
| Raise (e : exn).
Arguments Ok {A} a.
Arguments Raise {A} e.

Definition rbind {A B} (m : result A) (k : A -> result B) : result B :=
  match m with
  | Ok a => k a
  | Raise e => Raise e
  end.

(** [s[0]] *)
Definition index0 (s : str) : result N :=
  match s with
  | c :: _ => Ok c
  | [] => Raise IndexError
  end.

(** [s[1:]] *)
Definition slice1 (s : str) : str := drop 1 s.

(** ** Files and output

    The state the script acts on: the files, what may be opened, the line
    separator of the platform, for each existing directory the paths that
    [glob('*.java')] yields, and the trace of what the run did, in order.

    The function opens its file in text mode (lines 9 and 58), so between
    the text it works on and the bytes of the file stand Python's codec
    and its newline translation; opening and decoding are also where a
    call can fail.  A file that is UTF-8 is given by the code points it
    decodes to, its line ends as they stand in the file: UTF-8 being
    one-to-one, two such files have the same bytes exactly when they have
    the same code points. *)

Inductive event : Type :=
| Print (line : str)                   (* [print(line)] *)
| Write (path content : str).          (* [open(path, 'w')] and [f.write(content)] *)

(** The carriage return, ['\r']. *)
Definition CR : N := 13.

Inductive node : Type :=
| Utf8 (raw : str)             (* the bytes are the UTF-8 encoding of [raw] *)
| NotUtf8 (bytes : list N).    (* the bytes are not UTF-8 *)

Record world := World {
  files : gmap (list N) node;                 (* the files *)
  can_read : list N -> bool;                  (* [open(path, 'r')] is allowed *)
  can_write : list N -> bool;                 (* [open(path, 'w')] is allowed *)
  linesep : list N;                           (* [os.linesep] *)
  dirs : gmap (list N) (list (list N));       (* the listings *)
  trace : list event                          (* what the run did *)
}.

(** Reading with universal newlines: [\r\n] and a lone [\r] read as
    [\n]. *)
Fixpoint universal_newlines (s : str) : str :=
  match s with
  | [] => []
  | c :: s' =>
      if c =? CR then
        NL :: match s' with
              | n :: s'' =>
                  if n =? NL then universal_newlines s'' else universal_newlines s'
              | [] => []
              end
      else c :: universal_newlines s'
  end.

(** Writing: each [\n] goes out as the line separator. *)
Definition to_linesep (sep : str) (s : str) : str :=
  flat_map (fun c => if c =? NL then sep else [c]) s.

Definition emit (e : event) (w : world) : world :=
  World (files w) (can_read w) (can_write w) (linesep w) (dirs w) (trace w ++ [e]).

(** The state after [f.write(content)] on [path]. *)
Definition stored (path content : str) (w : world) : world :=
  World (<[path := Utf8 (to_linesep (linesep w) content)]> (files w))
        (can_read w) (can_write w) (linesep w) (dirs w)
        (trace w ++ [Write path content]).

(** The text that [f.read()] returns on [path], when there is one: the
    file exists, may be opened for reading and is UTF-8. *)
Definition text_of (w : world) (path : str) : option str :=
  match files w !! path with
  | Some (Utf8 raw) => if can_read w path then Some (universal_newlines raw) else None
  | _ => None
  end.

(** A computation that reads and changes the state and may raise. *)
Definition io (A : Type) : Type := world -> result A * world.

Definition ret {A} (a : A) : io A := fun w => (Ok a, w).

Definition bind {A B} (m : io A) (k : A -> io B) : io B :=
  fun w =>
    match m w with
    | (Ok a, w') => k a w'
    | (Raise e, w') => (Raise e, w')
    end.

Notation "x <- m ;; k" := (bind m (fun x => k))
  (at level 100, m at next level, right associativity).
Notation "m ;;; k" := (bind m (fun _ => k))
  (at level 100, right associativity).

Definition lift {A} (r : result A) : io A := fun w => (r, w).

(** [open(path, 'r', encoding='utf-8')] and [f.read()]: a missing file, a
    file that may not be opened and bytes that are not UTF-8 raise, in
    this order. *)
Definition read_file (path : str) : io str :=
  fun w =>
    match files w !! path with
    | None => (Raise (FileNotFoundError path), w)
    | Some n =>
        if can_read w path then
          match n with
          | Utf8 raw => (Ok (universal_newlines raw), w)
          | NotUtf8 _ => (Raise (UnicodeDecodeError path), w)
          end
        else (Raise (OSError path), w)
    end.

(** [open(path, 'w', encoding='utf-8')] and [f.write(content)]. *)
Definition write_file (path content : str) : io unit :=
  fun w =>
    if can_write w path then (Ok tt, stored path content w)
    else (Raise (OSError path), w).

Definition print (line : str) : io unit := fun w => (Ok tt, emit (Print line) w).

(** [d.exists()] and [d.glob('*.java')]: [None] when the directory is
    missing. *)
Definition list_dir (d : str) : io (option (list str)) :=
  fun w => (Ok (dirs w !! d), w).

(** A state in which everything may be opened. *)
Definition open_world (sep : str) (d : gmap (list N) node)
    (fs : gmap (list N) (list (list N))) : world :=
  World d (fun _ => true) (fun _ => true) sep fs [].

(** [str(n)] *)
Definition str_of_nat (n : nat) : str := lit (NilEmpty.string_of_uint (Nat.to_uint n)).

(** ** Scenarios *)

(** The class of the specification's scenario up to its last line, with
    its two accessors in the three-line form. *)
Definition class_head : list str :=
  [ lit "public class E {";
    lit "    public String name() {";
    lit "        return name;";
    lit "    }";
    lit "    public boolean isActive() {";
    lit "        return active;";
    lit "    }" ].

Definition scenario_block : list str :=
  [ lit "";
    lit "    // JavaBean-style getters";
    lit "    public String getName() { return name; }";
    lit "    public boolean IsActive() { return active; }" ].

Definition three_line_class : str := join_nl (class_head ++ [lit "}"]).

Definition three_line_class_out : str :=
  join_nl (class_head ++ scenario_block ++ [lit "}"]).

(** The four lines of the specification's scenario: each accessor on one
    line. *)
Definition one_line_class : str :=
  join_nl [ lit "public class E {";
            lit "    public String name() { return name; }";
            lit "    public boolean isActive() { return active; }";
            lit "}" ].

(** An accessor, and no line that is a closing brace alone. *)
Definition no_brace_line_class : str :=
  join_nl [ lit "    public A b() {"; lit " return c;"; lit " } // end" ].

(** An accessor whose return type has, between its angle brackets, the
    text of another accessor. *)
Definition nested_type_class : str :=
  join_nl [ lit "    public T<    public A b() {";
            lit "return c;";
            lit "}> name() {";
            lit "return name;";
            lit "}" ].

Definition nested_type : str :=
  join_nl [ lit "T<    public A b() {"; lit "return c;"; lit "}>" ].

Definition nested_getter : str :=
  join_nl [ lit "    public T<    public A b() {";
            lit "return c;";
            lit "}> getName() { return name; }" ].

(** An accessor whose return type has a newline between its angle
    brackets. *)
Definition two_line_type_class : str :=
  join_nl [ lit "public class E {";
            lit "    public Map<String,";
            lit "            Integer> counts() {";
            lit "        return counts;";
            lit "    }";
            lit "}" ].

Definition two_line_type : str :=
  join_nl [ lit "Map<String,"; lit "            Integer>" ].

Definition E_java : str := lit "E.java".

(** A state with the one file [E.java], its line ends as written, where
    the line separator is [\n]. *)
Definition only_file (content : str) : world :=
  open_world [NL] {[ E_java := Utf8 content ]} ∅.

Section Getters.

Variable U : unicode_db.

(** [c.isspace()], also the class [\s]. *)
Definition isspace (c : N) : bool :=
  if c <? 128 then ((9 <=? c) && (c <=? 13)) || ((28 <=? c) && (c <=? 32))
  else db_isspace U c.

(** [c.isalnum()]. *)
Definition isalnum (c : N) : bool :=
  if c <? 128 then
    ((48 <=? c) && (c <=? 57)) || ((65 <=? c) && (c <=? 90))
    || ((97 <=? c) && (c <=? 122))
  else db_isalnum U c.

(** The class [\w]. *)
Definition isword (c : N) : bool := isalnum c || (c =? ch "_").

(** The class [\S]. *)
Definition nonspace (c : N) : bool := negb (isspace c).

(** The class [[^>]]. *)
Definition not_gt (c : N) : bool := negb (c =? ch ">").

(** [c.upper()] of a one-character string. *)
Definition upper1 (c : N) : str :=
  if c <? 128 then (if (97 <=? c) && (c <=? 122) then [c - 32] else [c])
  else db_upper U c.

Fixpoint lstrip (s : str) : str :=
  match s with
  | c :: s' => if isspace c then lstrip s' else s
  | [] => []
  end.

(** [s.strip()] *)
Definition strip (s : str) : str := rev (lstrip (rev (lstrip s))).

(** Line 18:
    [r'    public\s+(\S+(?:<[^>]+>)?)\s+(\w+)\(\)\s*\{\s*\n\s*return\s+(\w+);\s*\n\s*\}'] *)
Definition accessor_pattern : regex :=
  seq_of [
    chars "    public"; Rep 1 isspace;
    Grp 1 (seq_of [Rep 1 nonspace;
                   Opt (seq_of [Chr (ch "<"); Rep 1 not_gt; Chr (ch ">")])]);
    Rep 1 isspace;
    Grp 2 (Rep 1 isword);
    Chr (ch "("); Chr (ch ")"); Rep 0 isspace;
    Chr (ch "{"); Rep 0 isspace;
    Chr NL; Rep 0 isspace;
    chars "return"; Rep 1 isspace;
    Grp 3 (Rep 1 isword);
    Chr (ch ";"); Rep 0 isspace;
    Chr NL; Rep 0 isspace;
    Chr (ch "}")
  ].

(** What a match of the pattern looks like: the return type is a run of
    non-space characters, then possibly an angle-bracket group of any
    characters but [>]; the [w]s are runs of white space. *)
Definition type_token (t : str) : Prop :=
  exists base generic,
    t = base ++ generic /\ base <> [] /\ forallb nonspace base = true
    /\ (generic = []
        \/ exists inner, generic = ch "<" :: inner ++ [ch ">"]
                         /\ inner <> [] /\ forallb not_gt inner = true).

Definition accessor_text (s t n f : str) : Prop :=
  exists w1 w2 w3 w4 w5 w6 w7 w8,
    s = lit "    public" ++ w1 ++ t ++ w2 ++ n ++ lit "()" ++ w3
          ++ ch "{" :: w4 ++ NL :: w5 ++ lit "return" ++ w6 ++ f
          ++ ch ";" :: w7 ++ NL :: w8 ++ [ch "}"]
    /\ Forall (fun w => forallb isspace w = true) [w1; w2; w3; w4; w5; w6; w7; w8]
    /\ w1 <> [] /\ w2 <> [] /\ w6 <> []
    /\ type_token t
    /\ forallb isword n = true /\ n <> []
    /\ forallb isword f = true /\ f <> [].

(** A newline that directly follows an opening brace or a white-space
    character. *)
Definition brace_newline (s : str) : Prop :=
  exists x c y, s = x ++ c :: NL :: y /\ (c = ch "{" \/ isspace c = true).

(** A text ending in a character that is neither a space nor an opening
    brace, and holding no newline. *)
Definition closed_line (p : str) : Prop :=
  ~ In NL p /\ exists body c, p = body ++ [c] /\ c <> ch "{" /\ isspace c = false.

(** ** Name transformer (lines 31-34) *)

Definition getter_name (return_type method_name : str) : result str :=
  if str_eqb return_type (lit "boolean") && startswith method_name (lit "is")
  then rbind (index0 method_name) (fun c => Ok (upper1 c ++ slice1 method_name))
  else rbind (index0 method_name) (fun c =>
         Ok (lit "get" ++ upper1 c ++ slice1 method_name)).

(** ** Code synthesizer (lines 26-36) *)

(** The marker comment of the guard (line 13). *)
Definition marker : str := lit "// JavaBean-style getters".

(** The first entry of [getters] (line 27). *)
Definition marker_entry : str := NL :: lit "    // JavaBean-style getters".

(** Line 36: [f'    public {return_type} {getter_name}() {{ return {field_name}; }}'] *)
Definition getter_decl (return_type getter field_name : str) : str :=
  lit "    public " ++ return_type ++ lit " " ++ getter
    ++ lit "() { return " ++ field_name ++ lit "; }".

(** The loop of lines 29-36, appending to [getters]. *)
Fixpoint getters_loop (accessors : list (str * str * str)) (getters : list str)
    : result (list str) :=
  match accessors with
  | [] => Ok getters
  | (return_type, method_name, field_name) :: more =>
      rbind (getter_name return_type method_name) (fun g =>
        getters_loop more (getters ++ [getter_decl return_type g field_name]))
  end.

Definition synthesize (accessors : list (str * str * str)) : result (list str) :=
  getters_loop accessors [marker_entry].

(** ** Insertion engine (lines 39-57) *)

(** The loop of lines 43-47 over the indices [n-1], ..., [0]. *)
Fixpoint scan_back (lines : list str) (n : nat) : option nat :=
  match n with
  | O => None
  | S i =>
      if str_eqb (strip (nth i lines [])) (lit "}") then Some i
      else scan_back lines i
  end.

Definition last_brace_idx (lines : list str) : option nat :=
  scan_back lines (length lines).

(** The new content, or [None] when no line is a closing brace. *)
Definition insert_getters (content : str) (getters : list str) : option str :=
  let lines := split_nl content in
  match last_brace_idx lines with
  | None => None
  | Some i => Some (join_nl (list_insert_at i (join_nl getters) lines))
  end.

(** ** The per-file transformation (lines 6-62) *)

Definition msg_skip_marker (file_path : str) : str :=
  lit "Skipping " ++ file_path ++ lit " - already has JavaBean-style getters".
Definition msg_skip_none (file_path : str) : str :=
  lit "Skipping " ++ file_path ++ lit " - no record-style accessors found".
Definition msg_no_brace (file_path : str) : str :=
  lit "Warning: Could not find closing brace in " ++ file_path.
Definition msg_updated (file_path : str) : str := lit "Updated " ++ file_path.

Definition add_java_bean_getters (file_path : str) : io bool :=
  content <- read_file file_path ;;
  if contains marker content then
    print (msg_skip_marker file_path) ;;; ret false
  else
    let accessors := findall accessor_pattern content in
    match accessors with
    | [] => print (msg_skip_none file_path) ;;; ret false
    | _ :: _ =>
        getters <- lift (synthesize accessors) ;;
        match insert_getters content getters with
        | None => print (msg_no_brace file_path) ;;; ret false
        | Some new_content =>
            write_file file_path new_content ;;;
            print (msg_updated file_path) ;;;
            ret true
        end
    end.

(** The state after the write-back of [new_content] and its report. *)
Definition rewritten (file_path new_content : str) (w : world) : world :=
  emit (Print (msg_updated file_path)) (stored file_path new_content w).

(** ** The driver (lines 64-86) *)

(** The three directories of [event_dirs], as [str] renders them on the
    machine the script is written for. *)
Definition event_dirs : list str :=
  [ lit "C:\Users\Thomas\Documents\work\haven\backend\modules\case-mgmt\src\main\java\org\haven\casemgmt\domain\events";
    lit "C:\Users\Thomas\Documents\work\haven\backend\modules\case-mgmt\src\main\java\org\haven\casemgmt\domain\mandatedreport\events";
    lit "C:\Users\Thomas\Documents\work\haven\backend\modules\service-delivery\src\main\java\org\haven\servicedelivery\domain\events" ].

(** The inner loop (lines 82-85); [counts] is
    [(updated_count, total_count)]. *)
Fixpoint for_files (java_files : list str) (counts : nat * nat) : io (nat * nat) :=
  match java_files with
  | [] => ret counts
  | java_file :: more =>
      updated <- add_java_bean_getters java_file ;;
      for_files more
        (if updated then S (fst counts) else fst counts, S (snd counts))
  end.

(** The outer loop (lines 77-85). *)
Fixpoint for_dirs (ds : list str) (counts : nat * nat) : io (nat * nat) :=
  match ds with
  | [] => ret counts
  | event_dir :: more =>
      listing <- list_dir event_dir ;;
      match listing with
      | None =>
          print (lit "Directory not found: " ++ event_dir) ;;;
          for_dirs more counts
      | Some java_files =>
          counts' <- for_files java_files counts ;;
          for_dirs more counts'
      end
  end.

Definition main : io unit :=
  counts <- for_dirs event_dirs (0%nat, 0%nat) ;;
  print (NL :: lit "Done! Updated " ++ str_of_nat (fst counts) ++ lit " out of "
           ++ str_of_nat (snd counts) ++ lit " files.").

(** ** More scenarios *)

(** Four states.  In the first, with [\n] as line separator, [E.java]
    is the class of the scenario with [\r\n] line ends; in the second,
    with [\r\n] as line separator, it is that class with [\n] line ends.
    In the other two the first directory of [event_dirs] exists and the
    others do not: its listing is [A.java], a class with accessors in the
    three-line form, and [B.java], a class with none that the pattern
    matches, and in the last also [C.java], between the two, which does
    not exist. *)
Definition crlf_world : world :=
  open_world [NL] {[ E_java := Utf8 (to_linesep [CR; NL] three_line_class) ]} ∅.

Definition lf_world : world :=
  open_world [CR; NL] {[ E_java := Utf8 three_line_class ]} ∅.

Definition A_java : str := lit "A.java".
Definition B_java : str := lit "B.java".
Definition C_java : str := lit "C.java".

Definition two_files_world : world :=
  open_world [NL]
    {[ A_java := Utf8 three_line_class; B_java := Utf8 one_line_class ]}
    {[ hd [] event_dirs := [A_java; B_java] ]}.

Definition missing_file_world : world :=
  open_world [NL]
    {[ A_java := Utf8 three_line_class; B_java := Utf8 one_line_class ]}
    {[ hd [] event_dirs := [A_java; C_java; B_java] ]}.

(** ** Reading a run

    Notions used to state what the extractor and the driver do. *)

(** A text that begins with an accessor of the shape the pattern
    describes. *)
Definition starts_accessor (u : str) : Prop :=
  exists s post t n f, u = s ++ post /\ accessor_text s t n f.

(** The triples read off a text from left to right: each comes from an
    accessor text, no accessor text starts in the gap before it, the next
    one is looked for after its end, and none starts in what is left after
    the last. *)
Inductive occurrences : str -> list (str * str * str) -> Prop :=
| occ_none (text : str) :
    (forall a b, text = a ++ b -> ~ starts_accessor b) ->
    occurrences text []
| occ_next (gap s rest t n f : str) (more : list (str * str * str)) :
    (forall a b, gap = a ++ b -> b <> [] -> ~ starts_accessor (b ++ s ++ rest)) ->
    accessor_text s t n f ->
    occurrences rest more ->
    occurrences (gap ++ s ++ rest) ((t, n, f) :: more).

(** The contents that the function leaves alone: the marker is there, or
    no accessor is found, or no line is a closing brace. *)
Definition quiet (content : str) : bool :=
  contains marker content
  || match findall accessor_pattern content with [] => true | _ :: _ => false end
  || match last_brace_idx (split_nl content) with None => true | Some _ => false end.

(** The number of write-backs in a trace. *)
Definition is_write (e : event) : bool :=
  match e with
  | Write _ _ => true
  | Print _ => false
  end.

Definition writes (tr : list event) : nat := length (List.filter is_write tr).

(** Line 87: the summary that ends the run. *)
Definition msg_done (counts : nat * nat) : str :=
  NL :: lit "Done! Updated " ++ str_of_nat (fst counts) ++ lit " out of "
     ++ str_of_nat (snd counts) ++ lit " files.".

(** The files that the driver visits: the listings of the directories
    that exist, in order. *)
Definition listed (ds : list str) (m : world) : list str :=
  flat_map (fun d => default [] (dirs m !! d)) ds.

(** A file that a call leaves alone: it can be read as text and the text
    is quiet. *)
Definition settled (m : world) (q : str) : Prop :=
  exists raw,
    files m !! q = Some (Utf8 raw) /\ can_read m q = true
    /\ quiet (universal_newlines raw) = true.

(** A file on which a call does not raise: it exists, may be opened for
    reading, is UTF-8 and, unless its text is quiet, may be opened for
    writing. *)
Definition callable (m : world) (q : str) : Prop :=
  exists raw,
    files m !! q = Some (Utf8 raw) /\ can_read m q = true
    /\ (quiet (universal_newlines raw) = true \/ can_write m q = true).

(** The four ways a call raises, in the order in which the function
    meets them: the file is missing (line 9), it may not be opened for
    reading (line 9), its bytes are not UTF-8 (line 10), or its text asks
    for a write-back and it may not be opened for writing (line 58). *)
Definition raises (m : world) (p : str) (e : exn) : Prop :=
  (files m !! p = None /\ e = FileNotFoundError p)
  \/ (is_Some (files m !! p) /\ can_read m p = false /\ e = OSError p)
  \/ ((exists bytes, files m !! p = Some (NotUtf8 bytes))
      /\ can_read m p = true /\ e = UnicodeDecodeError p)
  \/ ((exists raw, files m !! p = Some (Utf8 raw)
                   /\ quiet (universal_newlines raw) = false)
      /\ can_read m p = true /\ can_write m p = false /\ e = OSError p).

(** The line that a call on [p] prints when it does not raise. *)
Definition report_of (p line : str) : Prop :=
  line = msg_skip_marker p \/ line = msg_skip_none p
  \/ line = msg_no_brace p \/ line = msg_updated p.

(** An event of the loops that is about the files [fs] only: the
    write-back of one of them, the report of one of them, or the notice
    of a missing directory (line 79). *)
Definition event_about (fs : list str) (ev : event) : Prop :=
  match ev with
  | Write q _ => In q fs
  | Print line =>
      (exists q, In q fs /\ report_of q line)
      \/ exists d, line = lit "Directory not found: " ++ d
  end.

(** What a part of a run that visited the files [fs] and wrote back [u]
    of them has done to the state. *)
Record carried (fs : list str) (u : nat) (m m1 : world) : Prop := Carried {
  same_dirs : dirs m1 = dirs m;
  same_can_read : can_read m1 = can_read m;
  same_can_write : can_write m1 = can_write m;
  same_linesep : linesep m1 = linesep m;
  same_dom : dom (files m1) = dom (files m);
  others_kept : forall q, ~ In q fs -> files m1 !! q = files m !! q;
  settled_kept : forall q, settled m q -> settled m1 q;
  callable_kept : forall q, callable m q -> callable m1 q;
  visited_settled : forall p, In p fs -> settled m1 p;
  nothing_to_do :
    (forall p, In p fs -> settled m p) -> u = 0%nat /\ files m1 = files m;
  events_added :
    exists events,
      trace m1 = trace m ++ events
      /\ writes events = u
      /\ (forall c, ~ In (Print (msg_done c)) events)
      /\ (forall p, In p fs ->
            exists line, report_of p line /\ In (Print line) events)
      /\ Forall (event_about fs) events
}.

(** * Proofs *)

(** ** Text *)

Lemma str_eqb_eq (a b : str) : str_eqb a b = true <-> a = b.
Proof.
  revert b; induction a as [|x a IH]; intros [|y b]; simpl; split;
    try congruence; try reflexivity.
  - intros H. apply andb_prop in H as [Hx Hab].
    apply N.eqb_eq in Hx. apply IH in Hab. congruence.
  - intros [= -> ->]. rewrite N.eqb_refl. simpl. apply IH. reflexivity.
Qed.

Lemma str_eqb_neq (a b : str) : str_eqb a b = false <-> a <> b.
Proof.
  destruct (str_eqb a b) eqn:E; split; try congruence.
  - intros Hab. apply str_eqb_eq in E. contradiction.
  - intros _ Hab. apply str_eqb_eq in Hab. congruence.
Qed.

Lemma startswith_spec (s p : str) :
  startswith s p = true <-> exists r, s = p ++ r.
Proof.
  revert s; induction p as [|x p IH]; intros s; simpl.
  - split; eauto.
  - destruct s as [|y s]; [split; [discriminate | intros [r [=]]]|].
    split.
    + intros H. apply andb_prop in H as [Hx Hs]. apply N.eqb_eq in Hx.
      apply IH in Hs as [r ->]. exists r. congruence.
    + intros [r [= -> ->]]. rewrite N.eqb_refl. simpl. apply IH. eauto.
Qed.

Lemma contains_spec (needle hay : str) :
  contains needle hay = true <-> exists a b, hay = a ++ needle ++ b.
Proof.
  induction hay as [|c hay IH]; simpl.
  - rewrite orb_false_r, startswith_spec. split.
    + intros [r Hr]. exists [], r. exact Hr.
    + intros (a & b & H). destruct a; simpl in H; [eauto | discriminate].
  - rewrite orb_true_iff, startswith_spec, IH. split.
    + intros [[r Hr] | (a & b & ->)].
      * exists [], r. exact Hr.
      * exists (c :: a), b. reflexivity.
    + intros (a & b & H). destruct a as [|c' a]; simpl in H.
      * left. eauto.
      * right. injection H as _ ->. eauto.
Qed.

Lemma contains_middle (needle a b : str) : contains needle (a ++ needle ++ b) = true.
Proof. apply contains_spec. eauto. Qed.

Lemma split_nl_not_nil (s : str) : split_nl s <> [].
Proof.
  induction s as [|c s IH]; simpl; [discriminate|].
  destruct (c =? NL); [discriminate|]. destruct (split_nl s); discriminate.
Qed.

(** Splitting and joining again gives the text back. *)
Lemma join_split (s : str) : join_nl (split_nl s) = s.
Proof.
  induction s as [|c s IH]; [reflexivity|].
  simpl. destruct (c =? NL) eqn:E.
  - apply N.eqb_eq in E. subst c.
    pose proof (split_nl_not_nil s) as Hne.
    simpl. destruct (split_nl s) as [|l ls]; [contradiction|].
    simpl in *. rewrite IH. reflexivity.
  - destruct (split_nl s) as [|l ls] eqn:Es; [destruct (split_nl_not_nil _ Es)|].
    rewrite <- IH. destruct ls; reflexivity.
Qed.

Lemma join_nl_cons (l : str) (ls : list str) :
  ls <> [] -> join_nl (l :: ls) = l ++ NL :: join_nl ls.
Proof. destruct ls; [contradiction | reflexivity]. Qed.

Lemma join_nl_app (xs ys : list str) :
  ys <> [] -> join_nl (xs ++ ys) = terminated xs ++ join_nl ys.
Proof.
  intros Hy. induction xs as [|x xs IH]; [reflexivity|].
  change ((x :: xs) ++ ys) with (x :: (xs ++ ys)).
  rewrite join_nl_cons by (destruct xs; [exact Hy | discriminate]).
  rewrite IH. unfold terminated. simpl. rewrite <- !app_assoc. reflexivity.
Qed.

(** ** The regular expression engine *)

Lemma rep_match_sound {A} (p : N -> bool) (lo : nat) (inp : str)
    (k : str -> option A) (a : A) :
  rep_match p lo inp k = Some a ->
  exists s rest,
    inp = s ++ rest /\ forallb p s = true /\ (lo <= length s)%nat
    /\ k rest = Some a.
Proof.
  revert lo; induction inp as [|c inp IH]; intros lo H; simpl in H.
  - destruct lo; [|discriminate]. exists [], []. auto.
  - assert (Hstop : match lo with O => k (c :: inp) | S _ => None end = Some a ->
                    exists s rest, c :: inp = s ++ rest /\ forallb p s = true
                                   /\ (lo <= length s)%nat /\ k rest = Some a).
    { destruct lo; [|discriminate]. intros Hk. exists [], (c :: inp). auto. }
    destruct (p c) eqn:Ep; [|auto].
    destruct (rep_match p (pred lo) inp k) eqn:E; [|auto].
    injection H as ->.
    apply IH in E as (s & rest & -> & Hs & Hlo & Hk).
    exists (c :: s), rest. simpl. rewrite Ep.
    repeat split; auto. lia.
Qed.

(** Soundness of the engine: an answer comes from a match of the pattern
    on a prefix of the input, followed by the continuation. *)
Lemma rx_match_sound {A} (r : regex) :
  forall (inp : str) (caps : captures) (k : str -> captures -> option A) (a : A),
    rx_match r inp caps k = Some a ->
    exists s rest caps',
      inp = s ++ rest /\ rx_lang r s caps caps' /\ k rest caps' = Some a.
Proof.
  induction r as [|c|lo p|r IH|r1 IH1 r2 IH2|i r IH]; intros inp caps k a H;
    simpl in H.
  - exists [], inp, caps. simpl. auto.
  - destruct inp as [|x rest]; [discriminate|].
    destruct (x =? c) eqn:E; [|discriminate]. apply N.eqb_eq in E. subst x.
    exists [c], rest, caps. simpl. auto.
  - apply rep_match_sound in H as (s & rest & -> & Hs & Hlo & Hk).
    exists s, rest, caps. simpl. auto.
  - destruct (rx_match r inp caps k) eqn:E.
    + injection H as ->. apply IH in E as (s & rest & caps' & -> & Hl & Hk).
      exists s, rest, caps'. simpl. auto.
    + exists [], inp, caps. simpl. auto.
  - apply IH1 in H as (s1 & rest1 & c1 & -> & Hl1 & H).
    apply IH2 in H as (s2 & rest2 & c2 & -> & Hl2 & H).
    exists (s1 ++ s2), rest2, c2. rewrite <- app_assoc.
    repeat split; auto. simpl. eauto 8.
  - apply IH in H as (s & rest & c1 & -> & Hl & H).
    rewrite length_app, Nat.add_sub, take_app_length in H.
    exists s, rest, (set_group i s c1). simpl. eauto.
Qed.

Lemma match_at_sound (r : regex) (inp rest : str) (caps : captures) :
  match_at r inp = Some (rest, caps) ->
  exists s, inp = s ++ rest /\ rx_lang r s no_groups caps.
Proof.
  unfold match_at. intros H.
  apply rx_match_sound in H as (s & rest' & caps' & -> & Hl & [= <- <-]).
  eauto.
Qed.

(** Every triple that [scan] returns is read off a match somewhere in the
    text. *)
Lemma scan_sound (r : regex) (x : str * str * str) :
  forall (inp : str) (skip : nat),
    In x (scan r inp skip) ->
    exists pre s rest caps,
      inp = pre ++ s ++ rest /\ rx_lang r s no_groups caps
      /\ x = (caps 1%nat, caps 2%nat, caps 3%nat).
Proof.
  induction inp as [|c inp IH]; intros skip H; simpl in H; [contradiction|].
  assert (Hrec : forall n, In x (scan r inp n) ->
            exists pre s rest caps,
              c :: inp = pre ++ s ++ rest /\ rx_lang r s no_groups caps
              /\ x = (caps 1%nat, caps 2%nat, caps 3%nat)).
  { intros n Hn. apply IH in Hn as (pre & s & rest & caps & -> & Hl & Hx).
    exists (c :: pre), s, rest, caps. auto. }
  destruct skip; [|eauto].
  destruct (match_at r (c :: inp)) as [[rest' caps]|] eqn:E; [|eauto].
  destruct H as [<- | H]; [|eauto].
  apply match_at_sound in E as (s & -> & Hl).
  exists [], s, rest', caps. auto.
Qed.

Lemma rx_lang_literal (l s : str) (c c' : captures) :
  rx_lang (seq_of (List.map Chr l)) s c c' -> s = l /\ c' = c.
Proof.
  revert s c'; induction l as [|x l IH]; intros s c'; simpl.
  - auto.
  - intros (s1 & s2 & c1 & -> & [-> ->] & H). apply IH in H as [-> ->]. auto.
Qed.

Lemma rx_lang_chars (x : string) (s : str) (c c' : captures) :
  rx_lang (chars x) s c c' -> s = lit x /\ c' = c.
Proof. apply rx_lang_literal. Qed.

Lemma rx_lang_seq_cons (r : regex) (rs : list regex) (s : str) (c c' : captures) :
  rx_lang (seq_of (r :: rs)) s c c' ->
  exists s1 s2 c1, s = s1 ++ s2 /\ rx_lang r s1 c c1 /\ rx_lang (seq_of rs) s2 c1 c'.
Proof. exact (fun H => H). Qed.

Lemma nonempty_length {A} (l : list A) : (1 <= length l)%nat -> l <> [].
Proof. destruct l; simpl; [lia | discriminate]. Qed.

Lemma accessor_pattern_lang (s : str) (caps : captures) :
  rx_lang accessor_pattern s no_groups caps ->
  accessor_text s (caps 1%nat) (caps 2%nat) (caps 3%nat).
Proof.
  unfold accessor_pattern. intros H.
  repeat (apply rx_lang_seq_cons in H;
          let s1 := fresh "s" in let c1 := fresh "c" in let H1 := fresh "H" in
          destruct H as (s1 & ? & c1 & -> & H1 & H)).
  apply rx_lang_chars in H0 as [-> ->].
  destruct H1 as (Hw1 & Hl1 & ->).
  destruct H2 as (ct & Ht & ->).
  destruct H3 as (Hw2 & Hl2 & ->).
  destruct H4 as (cn & (Hn & Hln & ->) & ->).
  destruct H5 as [-> ->]. destruct H6 as [-> ->].
  destruct H7 as (Hw3 & _ & ->). destruct H8 as [-> ->].
  destruct H9 as (Hw4 & _ & ->). destruct H10 as [-> ->].
  destruct H11 as (Hw5 & _ & ->).
  apply rx_lang_chars in H12 as [-> ->].
  destruct H13 as (Hw6 & Hl6 & ->).
  destruct H14 as (cf & (Hf & Hlf & ->) & ->).
  destruct H15 as [-> ->]. destruct H16 as (Hw7 & _ & ->).
  destruct H17 as [-> ->]. destruct H18 as (Hw8 & _ & ->).
  destruct H19 as [-> ->]. destruct H as [-> ->].
  assert (Htok : type_token s1 /\ ct = no_groups).
  { apply rx_lang_seq_cons in Ht as (base & g & c1 & -> & (Hb & Hlb & ->) & Ht).
    apply rx_lang_seq_cons in Ht as (g' & e & c2 & -> & Hg & [-> ->]).
    rewrite app_nil_r.
    destruct Hg as [Hg | [-> ->]].
    - apply rx_lang_seq_cons in Hg as (lt & g & c3 & -> & [-> ->] & Hg).
      apply rx_lang_seq_cons in Hg as (inner & g' & c4 & -> & (Hi & Hli & ->) & Hg).
      apply rx_lang_seq_cons in Hg as (gt & e & c5 & -> & [-> ->] & [-> ->]).
      split; [|reflexivity].
      exists base, (ch "<" :: inner ++ [ch ">"]).
      repeat split; auto using nonempty_length.
      right. exists inner. auto using nonempty_length.
    - split; [|reflexivity]. exists base, [].
      repeat split; auto using nonempty_length. }
  destruct Htok as [Htok ->].
  change (set_group 3 s13 (set_group 2 s3 (set_group 1 s1 no_groups)) 1%nat) with s1.
  change (set_group 3 s13 (set_group 2 s3 (set_group 1 s1 no_groups)) 2%nat) with s3.
  change (set_group 3 s13 (set_group 2 s3 (set_group 1 s1 no_groups)) 3%nat) with s13.
  exists s, s2, s6, s8, s10, s12, s15, s17.
  split.
  { rewrite app_nil_r. reflexivity. }
  split; [repeat constructor; assumption|].
  repeat split; auto using nonempty_length.
Qed.

(** Every extracted triple is read off a text of the accessor shape that
    occurs in the content. *)
Lemma findall_accessor_text (content t n f : str) :
  In (t, n, f) (findall accessor_pattern content) ->
  exists pre s post, content = pre ++ s ++ post /\ accessor_text s t n f.
Proof.
  unfold findall. intros H.
  apply scan_sound in H as (pre & s & rest & caps & -> & Hl & [= -> -> ->]).
  exists pre, s, rest. split; [reflexivity|].
  apply accessor_pattern_lang. exact Hl.
Qed.

(** A match of the accessor pattern is never empty, which is what [scan]
    relies on to resume after it. *)
Lemma accessor_match_nonempty (inp rest : str) (caps : captures) :
  match_at accessor_pattern inp = Some (rest, caps) ->
  (length rest < length inp)%nat.
Proof.
  intros H. apply match_at_sound in H as (s & -> & Hl).
  apply accessor_pattern_lang in Hl
    as (w1 & w2 & w3 & w4 & w5 & w6 & w7 & w8 & -> & _).
  rewrite !length_app. simpl. lia.
Qed.

Lemma findall_names_nonempty (content : str) :
  Forall (fun a : str * str * str => snd (fst a) <> [])
         (findall accessor_pattern content).
Proof.
  apply List.Forall_forall. intros [[t n] f] H.
  apply findall_accessor_text in H as (pre & s & post & _ & Hs).
  destruct Hs as (w1 & w2 & w3 & w4 & w5 & w6 & w7 & w8 & _ & _ & _ & _ & _ & _ & _ & Hn & _).
  exact Hn.
Qed.

(** ** Name transformer and synthesizer *)

Lemma getter_name_cons (t : str) (c : N) (tl : str) :
  getter_name t (c :: tl) =
  Ok (if str_eqb t (lit "boolean") && startswith (c :: tl) (lit "is")
      then upper1 c ++ tl else lit "get" ++ upper1 c ++ tl).
Proof.
  unfold getter_name.
  destruct (str_eqb t (lit "boolean") && startswith (c :: tl) (lit "is"));
    reflexivity.
Qed.

Lemma getters_loop_spec (accessors : list (str * str * str)) :
  forall getters0 : list str,
    Forall (fun a : str * str * str => snd (fst a) <> []) accessors ->
    exists decls,
      getters_loop accessors getters0 = Ok (getters0 ++ decls)
      /\ Forall2 (fun (a : str * str * str) (d : str) =>
                    exists g, getter_name (fst (fst a)) (snd (fst a)) = Ok g
                              /\ d = getter_decl (fst (fst a)) g (snd a))
                 accessors decls.
Proof.
  induction accessors as [|[[t n] f] more IH]; intros g0 Hne.
  - exists []. rewrite app_nil_r. split; [reflexivity | constructor].
  - inversion Hne as [|? ? Hn Hmore]; subst. simpl in Hn.
    destruct n as [|c tl]; [contradiction|].
    simpl. rewrite getter_name_cons. simpl.
    destruct (IH (g0 ++ [getter_decl t
                (if str_eqb t (lit "boolean") && startswith (c :: tl) (lit "is")
                 then upper1 c ++ tl else lit "get" ++ upper1 c ++ tl) f]) Hmore)
      as (decls & Hloop & Hall).
    eexists (_ :: decls). rewrite <- app_assoc in Hloop. split; [exact Hloop|].
    constructor; [|exact Hall].
    simpl. rewrite getter_name_cons. eauto.
Qed.

(** ** Insertion engine *)

Lemma scan_back_some (lines : list str) (n i : nat) :
  scan_back lines n = Some i ->
  (i < n)%nat /\ strip (nth i lines []) = lit "}"
  /\ forall j, (i < j < n)%nat -> strip (nth j lines []) <> lit "}".
Proof.
  induction n as [|n IH]; simpl; [discriminate|].
  destruct (str_eqb (strip (nth n lines [])) (lit "}")) eqn:E.
  - intros [= <-]. apply str_eqb_eq in E. repeat split; [lia | exact E | intros; lia].
  - intros H. apply IH in H as (Hi & Hb & Hlast). apply str_eqb_neq in E.
    repeat split; [lia | exact Hb |].
    intros j Hj. destruct (Nat.eq_dec j n) as [->|]; [exact E | apply Hlast; lia].
Qed.

Lemma scan_back_none (lines : list str) (n : nat) :
  scan_back lines n = None ->
  forall j, (j < n)%nat -> strip (nth j lines []) <> lit "}".
Proof.
  induction n as [|n IH]; simpl; [intros; lia|].
  destruct (str_eqb (strip (nth n lines [])) (lit "}")) eqn:E; [discriminate|].
  intros H j Hj. apply str_eqb_neq in E.
  destruct (Nat.eq_dec j n) as [->|]; [exact E | apply IH; [exact H | lia]].
Qed.

(** The index found splits the lines at the last closing-brace line. *)
Lemma last_brace_idx_some (lines : list str) (i : nat) :
  last_brace_idx lines = Some i ->
  exists pre l post,
    lines = pre ++ l :: post /\ length pre = i /\ strip l = lit "}"
    /\ Forall (fun l' => strip l' <> lit "}") post.
Proof.
  unfold last_brace_idx. intros H.
  apply scan_back_some in H as (Hi & Hb & Hlast).
  destruct (lookup_lt_is_Some_2 lines i Hi) as [l Hl].
  rewrite (nth_lookup_Some _ _ _ _ Hl) in Hb.
  exists (take i lines), l, (drop (S i) lines).
  split; [symmetry; apply take_drop_middle; exact Hl|].
  split; [apply length_take_le; lia|].
  split; [exact Hb|].
  apply Forall_lookup. intros j l' Hj. rewrite lookup_drop in Hj.
  rewrite <- (nth_lookup_Some _ _ [] _ Hj). apply Hlast.
  apply lookup_lt_Some in Hj. lia.
Qed.

Lemma last_brace_idx_none (lines : list str) :
  last_brace_idx lines = None <-> Forall (fun l => strip l <> lit "}") lines.
Proof.
  unfold last_brace_idx. split.
  - intros H. apply (Forall_nth _ []). intros j Hj.
    exact (scan_back_none _ _ H j Hj).
  - intros Hall. destruct (scan_back lines (length lines)) as [i|] eqn:E; [|reflexivity].
    apply scan_back_some in E as (Hi & Hb & _).
    rewrite (Forall_nth _ []) in Hall. destruct (Hall i Hi Hb).
Qed.

Lemma list_insert_at_middle {A} (pre post : list A) (x : A) :
  list_insert_at (length pre) x (pre ++ post) = pre ++ x :: post.
Proof.
  unfold list_insert_at. rewrite take_app_length, drop_app_length. reflexivity.
Qed.

(** What the engine returns when a closing-brace line exists. *)
Lemma insert_getters_some (content : str) (getters : list str) (new_content : str) :
  insert_getters content getters = Some new_content ->
  exists pre l post,
    split_nl content = pre ++ l :: post /\ strip l = lit "}"
    /\ Forall (fun l' => strip l' <> lit "}") post
    /\ new_content = join_nl (pre ++ join_nl getters :: l :: post).
Proof.
  unfold insert_getters.
  destruct (last_brace_idx (split_nl content)) as [i|] eqn:E; [|discriminate].
  intros [= <-].
  apply last_brace_idx_some in E as (pre & l & post & Hsplit & <- & Hl & Hpost).
  exists pre, l, post. rewrite Hsplit at 2. rewrite list_insert_at_middle. auto.
Qed.

Lemma insert_getters_none (content : str) (getters : list str) :
  insert_getters content getters = None <->
  Forall (fun l => strip l <> lit "}") (split_nl content).
Proof.
  unfold insert_getters. rewrite <- last_brace_idx_none.
  destruct (last_brace_idx (split_nl content)); split; congruence.
Qed.

(** ** The per-file transformation *)

(** On extracted triples the synthesizer does not raise. *)
Lemma synthesize_extracted (content : str) :
  exists decls,
    synthesize (findall accessor_pattern content) = Ok (marker_entry :: decls)
    /\ Forall2 (fun (a : str * str * str) (d : str) =>
                  exists g, getter_name (fst (fst a)) (snd (fst a)) = Ok g
                            /\ d = getter_decl (fst (fst a)) g (snd a))
               (findall accessor_pattern content) decls.
Proof.
  exact (getters_loop_spec _ [marker_entry] (findall_names_nonempty content)).
Qed.

(** The marker comment is part of whatever the engine returns for a list of
    getters headed by the marker entry. *)
Lemma insert_getters_marker (content : str) (decls : list str) (new_content : str) :
  insert_getters content (marker_entry :: decls) = Some new_content ->
  contains marker new_content = true.
Proof.
  intros H. apply insert_getters_some in H as (pre & l & post & _ & _ & _ & ->).
  rewrite join_nl_app by discriminate.
  rewrite join_nl_cons by discriminate.
  assert (Hm : exists tl, join_nl (marker_entry :: decls)
                          = (NL :: lit "    ") ++ marker ++ tl).
  { destruct decls as [|d ds].
    - exists []. rewrite app_nil_r. reflexivity.
    - exists (NL :: join_nl (d :: ds)). rewrite join_nl_cons by discriminate.
      reflexivity. }
  destruct Hm as [tl ->].
  apply contains_spec.
  exists (terminated pre ++ NL :: lit "    "), (tl ++ NL :: join_nl (l :: post)).
  rewrite <- !app_assoc. reflexivity.
Qed.

Lemma split_nl_app_nl (a b : str) :
  split_nl (a ++ NL :: b) = split_nl a ++ split_nl b.
Proof.
  induction a as [|c a IH]; [reflexivity|].
  simpl. destruct (c =? NL); rewrite IH; [reflexivity|].
  pose proof (split_nl_not_nil a). destruct (split_nl a); [contradiction | reflexivity].
Qed.

Lemma split_nl_one_line (l : str) : ~ In NL l -> split_nl l = [l].
Proof.
  induction l as [|c l IH]; [reflexivity|].
  intros H. simpl. destruct (c =? NL) eqn:E.
  - apply N.eqb_eq in E. destruct H. left. exact E.
  - rewrite IH; [reflexivity|]. intros Hin. apply H. right. exact Hin.
Qed.

(** No line of a split text holds a newline. *)
Lemma split_nl_lines (s : str) : Forall (fun l => ~ In NL l) (split_nl s).
Proof.
  induction s as [|c s IH]; simpl.
  - constructor; [intros [] | constructor].
  - destruct (c =? NL) eqn:E.
    + constructor; [intros [] | exact IH].
    + destruct (split_nl s) as [|l ls]; [constructor; [|constructor]|].
      * intros [Hc | []]. subst c. rewrite N.eqb_refl in E. discriminate.
      * inversion IH as [|? ? Hl Hls]; subst. constructor; [|exact Hls].
        intros [Hc | Hin]; [|auto].
        subst c. rewrite N.eqb_refl in E. discriminate.
Qed.

Lemma split_join (ls : list str) :
  ls <> [] -> split_nl (join_nl ls) = flat_map split_nl ls.
Proof.
  induction ls as [|l ls IH]; [contradiction|]. intros _.
  destruct ls as [|l' ls].
  - simpl. rewrite app_nil_r. reflexivity.
  - rewrite join_nl_cons by discriminate. rewrite split_nl_app_nl.
    rewrite IH by discriminate. reflexivity.
Qed.

Lemma flat_map_one_line (ls : list str) :
  Forall (fun l => ~ In NL l) ls -> flat_map split_nl ls = ls.
Proof.
  induction 1 as [|l ls Hl _ IH]; [reflexivity|].
  simpl. rewrite split_nl_one_line, IH by assumption. reflexivity.
Qed.

(** The lines of a text in which one entry was put between two runs of
    lines: the same lines, with the lines of the entry in between. *)
Lemma split_join_middle (pre post : list str) (x : str) :
  Forall (fun l => ~ In NL l) pre -> Forall (fun l => ~ In NL l) post ->
  split_nl (join_nl (pre ++ x :: post)) = pre ++ split_nl x ++ post.
Proof.
  intros Hpre Hpost. rewrite split_join by (destruct pre; discriminate).
  rewrite flat_map_app. simpl.
  rewrite !flat_map_one_line by assumption. reflexivity.
Qed.

(** ** Where a match can lie *)

Lemma accessor_text_newline (s t n f : str) :
  accessor_text s t n f ->
  exists head w tail,
    s = head ++ ch "{" :: w ++ NL :: tail /\ forallb isspace w = true.
Proof.
  intros (w1 & w2 & w3 & w4 & w5 & w6 & w7 & w8 & -> & Hw & _).
  exists (lit "    public" ++ w1 ++ t ++ w2 ++ n ++ lit "()" ++ w3), w4.
  eexists. split.
  - rewrite <- !app_assoc. reflexivity.
  - inversion Hw as [|? ? _ Hw']; subst. inversion Hw' as [|? ? _ Hw'']; subst.
    inversion Hw'' as [|? ? _ Hw''']; subst. inversion Hw''' as [|? ? H4 _]; subst.
    exact H4.
Qed.

Lemma findall_brace_newline (content : str) :
  findall accessor_pattern content <> [] -> brace_newline content.
Proof.
  destruct (findall accessor_pattern content) as [|[[t n] f] more] eqn:E;
    [contradiction|]. intros _.
  assert (Hin : In (t, n, f) (findall accessor_pattern content))
    by (rewrite E; left; reflexivity).
  apply findall_accessor_text in Hin as (pre & s & post & -> & Hs).
  apply accessor_text_newline in Hs as (head & w & tail & -> & Hw).
  destruct (list_eq_nil_dec w) as [-> | Hne].
  - exists (pre ++ head), (ch "{"), (tail ++ post). split; [|left; reflexivity].
    rewrite <- !app_assoc. reflexivity.
  - destruct (exists_last Hne) as (w' & c & ->).
    exists (pre ++ head ++ ch "{" :: w'), c, (tail ++ post). split.
    + rewrite <- !app_assoc. simpl. rewrite <- !app_assoc. reflexivity.
    + right. rewrite forallb_app in Hw. apply andb_prop in Hw as [_ Hc].
      simpl in Hc. rewrite andb_true_r in Hc. exact Hc.
Qed.

Lemma findall_needs_newline (content : str) :
  ~ In NL content -> findall accessor_pattern content = [].
Proof.
  intros Hnl.
  destruct (findall accessor_pattern content) as [|a more] eqn:E; [reflexivity|].
  destruct (findall_brace_newline content) as (x & c & y & -> & _);
    [rewrite E; discriminate|].
  destruct Hnl. apply in_or_app. right. right. left. reflexivity.
Qed.

Lemma closed_lines_no_brace_newline (pieces : list str) :
  Forall closed_line pieces ->
  ~ brace_newline (flat_map (fun p => NL :: p) pieces).
Proof.
  induction 1 as [|p ps [Hnl (body & e & Hp & He1 & He2)] _ IH];
    intros (x & c & y & Heq & Hbad).
  - destruct x; discriminate.
  - simpl in Heq. destruct x as [|x0 x'].
    + injection Heq as Hc Heq. apply Hnl. subst p.
      destruct body; injection Heq as Hb _; simpl; auto.
    + injection Heq as _ Heq.
      apply app_eq_app in Heq as [l [[Hpl Hl] | [Hx Hr]]].
      * destruct l as [|c' [|n' l']].
        -- apply IH. exists [], c, y. simpl in Hl. rewrite <- Hl. auto.
        -- injection Hl as <- HR. rewrite Hp in Hpl.
           apply app_inj_tail in Hpl as [_ <-].
           destruct Hbad as [Hb | Hb]; congruence.
        -- injection Hl as <- <- _. apply Hnl. rewrite Hpl.
           apply in_or_app. right. right. left. reflexivity.
      * apply IH. exists l, c, y. auto.
Qed.

Lemma join_nl_head (m : str) (ds : list str) :
  join_nl (m :: ds) = m ++ flat_map (fun d => NL :: d) ds.
Proof.
  revert m; induction ds as [|d ds IH]; intros m; simpl.
  - rewrite app_nil_r. reflexivity.
  - f_equal. f_equal. apply IH.
Qed.

(** Each declaration that the loop appends ends in a closing brace. *)
Lemma getters_loop_decls (accessors : list (str * str * str)) :
  forall getters0 getters : list str,
    getters_loop accessors getters0 = Ok getters ->
    exists decls,
      getters = getters0 ++ decls
      /\ Forall (fun d => exists body, d = body ++ [ch "}"]) decls.
Proof.
  induction accessors as [|[[t n] f] more IH]; intros g0 g H; simpl in H.
  - injection H as <-. exists []. rewrite app_nil_r. auto.
  - destruct (getter_name t n) as [gn|e]; simpl in H; [|discriminate].
    apply IH in H as (decls & -> & Hall). rewrite <- app_assoc.
    eexists. split; [reflexivity|]. constructor; [|exact Hall].
    exists (lit "    public " ++ t ++ lit " " ++ gn ++ lit "() { return "
            ++ f ++ lit "; "). unfold getter_decl.
    rewrite <- !app_assoc. reflexivity.
Qed.

(** ** Newline translation *)

Lemma to_linesep_app (sep a b : str) :
  to_linesep sep (a ++ b) = to_linesep sep a ++ to_linesep sep b.
Proof. unfold to_linesep. apply flat_map_app. Qed.

Lemma to_linesep_plain (sep s : str) : ~ In NL s -> to_linesep sep s = s.
Proof.
  induction s as [|c s IH]; intros H; [reflexivity|].
  unfold to_linesep in *. simpl. destruct (c =? NL) eqn:E.
  - apply N.eqb_eq in E. destruct H. left. exact E.
  - simpl. rewrite IH; [reflexivity|]. intros Hin. apply H. right. exact Hin.
Qed.

Lemma universal_newlines_plain (s rest : str) :
  ~ In CR s -> universal_newlines (s ++ rest) = s ++ universal_newlines rest.
Proof.
  induction s as [|c s IH]; intros H; [reflexivity|].
  simpl. destruct (c =? CR) eqn:E.
  - apply N.eqb_eq in E. destruct H. left. exact E.
  - rewrite IH; [reflexivity|]. intros Hin. apply H. right. exact Hin.
Qed.

(** A character that is not a newline cuts the translation in two. *)
Lemma universal_newlines_cut (x : str) :
  (forall c r, c <> NL ->
     universal_newlines (x ++ c :: r)
     = universal_newlines x ++ universal_newlines (c :: r))
  /\ (forall a c r, c <> NL ->
        universal_newlines ((a :: x) ++ c :: r)
        = universal_newlines (a :: x) ++ universal_newlines (c :: r)).
Proof.
  induction x as [|n x [IH1 IH2]].
  - split; [reflexivity|]. intros a c r Hc.
    change (([a] ++ c :: r)) with (a :: c :: r).
    simpl. destruct (a =? CR); [|reflexivity].
    destruct (c =? NL) eqn:E; [apply N.eqb_eq in E; contradiction | reflexivity].
  - split; [intros c r Hc; apply IH2; exact Hc|].
    intros a c r Hc.
    change ((a :: n :: x) ++ c :: r) with (a :: n :: (x ++ c :: r)).
    change (universal_newlines (a :: n :: (x ++ c :: r)))
      with (if a =? CR
            then NL :: (if n =? NL then universal_newlines (x ++ c :: r)
                        else universal_newlines (n :: (x ++ c :: r)))
            else a :: universal_newlines (n :: (x ++ c :: r))).
    change (universal_newlines (a :: n :: x))
      with (if a =? CR
            then NL :: (if n =? NL then universal_newlines x
                        else universal_newlines (n :: x))
            else a :: universal_newlines (n :: x)).
    pose proof (IH2 n c r Hc) as Hn.
    change ((n :: x) ++ c :: r) with (n :: (x ++ c :: r)) in Hn.
    destruct (a =? CR); [destruct (n =? NL)|].
    + rewrite (IH1 c r Hc). reflexivity.
    + rewrite Hn. reflexivity.
    + rewrite Hn. reflexivity.
Qed.

(** The marker comment survives the way to the file and back, whatever
    the line separator. *)
Lemma marker_round_trip (sep s : str) :
  contains marker s = true ->
  contains marker (universal_newlines (to_linesep sep s)) = true.
Proof.
  intros H. apply contains_spec in H as (a & b & ->).
  rewrite !to_linesep_app.
  rewrite (to_linesep_plain sep marker) by (vm_compute; intuition discriminate).
  assert (Hcut : universal_newlines (to_linesep sep a ++ marker ++ to_linesep sep b)
                 = universal_newlines (to_linesep sep a)
                   ++ universal_newlines (marker ++ to_linesep sep b)).
  { exact (proj1 (universal_newlines_cut (to_linesep sep a)) (ch "/")
             (lit "/ JavaBean-style getters" ++ to_linesep sep b)
             ltac:(discriminate)). }
  rewrite Hcut.
  rewrite (universal_newlines_plain marker) by (vm_compute; intuition discriminate).
  apply contains_middle.
Qed.

(** ** One call *)

Lemma add_java_bean_getters_run (file_path raw : str) (m : world) :
  files m !! file_path = Some (Utf8 raw) ->
  can_read m file_path = true ->
  add_java_bean_getters file_path m =
  if contains marker (universal_newlines raw) then
    (Ok false, emit (Print (msg_skip_marker file_path)) m)
  else
    match findall accessor_pattern (universal_newlines raw) with
    | [] => (Ok false, emit (Print (msg_skip_none file_path)) m)
    | a :: more =>
        match synthesize (a :: more) with
        | Raise e => (Raise e, m)
        | Ok getters =>
            match insert_getters (universal_newlines raw) getters with
            | None => (Ok false, emit (Print (msg_no_brace file_path)) m)
            | Some new_content =>
                if can_write m file_path
                then (Ok true,
                      emit (Print (msg_updated file_path)) (stored file_path new_content m))
                else (Raise (OSError file_path), m)
            end
        end
    end.
Proof.
  intros Hfile Hread. unfold add_java_bean_getters, bind, read_file.
  rewrite Hfile, Hread.
  destruct (contains marker (universal_newlines raw)); [reflexivity|].
  destruct (findall accessor_pattern (universal_newlines raw)) as [|a more];
    [reflexivity|].
  unfold lift. destruct (synthesize (a :: more)) as [getters|e]; [|reflexivity].
  destruct (insert_getters (universal_newlines raw) getters); [|reflexivity].
  unfold write_file. destruct (can_write m file_path); reflexivity.
Qed.

Lemma text_of_some (w : world) (path content : str) :
  text_of w path = Some content <->
  exists raw,
    files w !! path = Some (Utf8 raw) /\ can_read w path = true
    /\ content = universal_newlines raw.
Proof.
  unfold text_of. split.
  - destruct (files w !! path) as [[raw|bytes]|]; [|discriminate|discriminate].
    destruct (can_read w path); [|discriminate].
    intros [= <-]. exists raw. auto.
  - intros (raw & -> & -> & ->). reflexivity.
Qed.

(** After a write-back the file reads as the text written, taken to the
    file and back. *)
Lemma text_of_rewritten (w : world) (path content new_content : str) :
  text_of w path = Some content ->
  text_of (rewritten path new_content w) path
  = Some (universal_newlines (to_linesep (linesep w) new_content)).
Proof.
  intros H. apply text_of_some in H as (raw & _ & Hread & _).
  apply text_of_some. exists (to_linesep (linesep w) new_content).
  split; [apply lookup_insert_eq|]. split; [exact Hread | reflexivity].
Qed.

(** The run of the function on a file that reads as [content], branch by
    branch. *)
Lemma add_java_bean_getters_on_text (file_path content : str) (w : world) :
  text_of w file_path = Some content ->
  add_java_bean_getters file_path w =
  if contains marker content then
    (Ok false, emit (Print (msg_skip_marker file_path)) w)
  else
    match findall accessor_pattern content with
    | [] => (Ok false, emit (Print (msg_skip_none file_path)) w)
    | a :: more =>
        match synthesize (a :: more) with
        | Raise e => (Raise e, w)
        | Ok getters =>
            match insert_getters content getters with
            | None => (Ok false, emit (Print (msg_no_brace file_path)) w)
            | Some new_content =>
                if can_write w file_path
                then (Ok true, rewritten file_path new_content w)
                else (Raise (OSError file_path), w)
            end
        end
    end.
Proof.
  intros H. apply text_of_some in H as (raw & Hraw & Hread & ->).
  exact (add_java_bean_getters_run file_path raw w Hraw Hread).
Qed.

(** The ways a call on a file that reads as text goes. *)
Lemma run_quiet (file_path raw : str) (m : world) :
  files m !! file_path = Some (Utf8 raw) ->
  can_read m file_path = true ->
  (quiet (universal_newlines raw) = true
   /\ exists line,
        report_of file_path line /\ line <> msg_updated file_path
        /\ add_java_bean_getters file_path m = (Ok false, emit (Print line) m))
  \/ (quiet (universal_newlines raw) = false
      /\ exists getters new_content,
           synthesize (findall accessor_pattern (universal_newlines raw)) = Ok getters
           /\ insert_getters (universal_newlines raw) getters = Some new_content
           /\ contains marker new_content = true
           /\ add_java_bean_getters file_path m
              = if can_write m file_path
                then (Ok true,
                      emit (Print (msg_updated file_path)) (stored file_path new_content m))
                else (Raise (OSError file_path), m)).
Proof.
  intros Hfile Hread. rewrite (add_java_bean_getters_run _ _ _ Hfile Hread).
  unfold quiet.
  assert (Hne : forall x : str, lit "Skipping " ++ x <> msg_updated file_path)
    by (intros x H; vm_compute in H; discriminate H).
  destruct (contains marker (universal_newlines raw)).
  { left. split; [reflexivity|]. exists (msg_skip_marker file_path).
    unfold report_of. split; [auto|]. split; [apply Hne | reflexivity]. }
  destruct (synthesize_extracted (universal_newlines raw)) as (decls & Hsyn & _).
  destruct (findall accessor_pattern (universal_newlines raw)) as [|a more].
  { left. split; [reflexivity|]. exists (msg_skip_none file_path).
    unfold report_of. split; [auto|]. split; [apply Hne | reflexivity]. }
  rewrite Hsyn.
  destruct (insert_getters (universal_newlines raw) (marker_entry :: decls))
    as [new_content|] eqn:Ei.
  - right. pose proof (insert_getters_marker _ _ _ Ei) as Hmark.
    pose proof Ei as Ei'. unfold insert_getters in Ei'.
    destruct (last_brace_idx (split_nl (universal_newlines raw))); [|discriminate].
    split; [reflexivity|]. exists (marker_entry :: decls), new_content. auto.
  - left. unfold insert_getters in Ei.
    destruct (last_brace_idx (split_nl (universal_newlines raw))); [discriminate|].
    split; [reflexivity|]. exists (msg_no_brace file_path).
    unfold report_of. split; [auto|]. split; [|reflexivity].
    intros H. vm_compute in H. discriminate H.
Qed.

Lemma run_raises (p : str) (m : world) (e : exn) :
  raises m p e -> add_java_bean_getters p m = (Raise e, m).
Proof.
  intros [[Hnone ->] | [[[n Hn] [Hread ->]] | [[[bytes Hb] [Hread ->]]
         | [(raw & Hraw & Hq) (Hread & Hwrite & ->)]]]].
  - unfold add_java_bean_getters, bind, read_file. rewrite Hnone. reflexivity.
  - unfold add_java_bean_getters, bind, read_file. rewrite Hn, Hread. reflexivity.
  - unfold add_java_bean_getters, bind, read_file. rewrite Hb, Hread. reflexivity.
  - destruct (run_quiet p raw m Hraw Hread)
      as [[Hq' _] | [_ (g & new & _ & _ & _ & ->)]]; [congruence|].
    rewrite Hwrite. reflexivity.
Qed.

Lemma run_callable (p : str) (m : world) :
  callable m p ->
  (settled m p
   /\ exists line, report_of p line
                   /\ add_java_bean_getters p m = (Ok false, emit (Print line) m))
  \/ (~ settled m p
      /\ exists raw new_content,
           files m !! p = Some (Utf8 raw) /\ can_read m p = true
           /\ contains marker new_content = true
           /\ add_java_bean_getters p m
              = (Ok true, emit (Print (msg_updated p)) (stored p new_content m))).
Proof.
  intros (raw & Hraw & Hread & Hcan).
  destruct (run_quiet p raw m Hraw Hread)
    as [[Hq (line & Hrep & _ & Hrun)] | [Hq (g & new & _ & _ & Hmark & Hrun)]].
  - left. split; [exists raw; auto|]. eauto.
  - right. split.
    + intros (raw' & Hraw' & _ & Hq'). congruence.
    + destruct Hcan as [Hq' | Hwrite]; [congruence|].
      rewrite Hwrite in Hrun. exists raw, new. auto.
Qed.

(** Every call is of one of the two kinds. *)
Lemma callable_or_raises (p : str) (m : world) :
  callable m p \/ exists e, raises m p e.
Proof.
  unfold callable, raises.
  destruct (files m !! p) as [[raw|bytes]|] eqn:Hfile;
    [| |right; eexists; left; eauto].
  - destruct (can_read m p) eqn:Hread;
      [|right; eexists; right; left; eauto].
    destruct (quiet (universal_newlines raw)) eqn:Hq; [left; eauto 6|].
    destruct (can_write m p) eqn:Hwrite; [left; eauto 6|].
    right. eexists. do 3 right. eauto 8.
  - destruct (can_read m p) eqn:Hread;
      [|right; eexists; right; left; eauto].
    right. eexists. right. right. left. eauto.
Qed.

Lemma call_ok_callable (p : str) (m m1 : world) (b : bool) :
  add_java_bean_getters p m = (Ok b, m1) -> callable m p.
Proof.
  intros Hrun. destruct (callable_or_raises p m) as [H | [e He]]; [exact H|].
  rewrite (run_raises _ _ _ He) in Hrun. discriminate.
Qed.

Lemma call_raise (p : str) (m m1 : world) (e : exn) :
  add_java_bean_getters p m = (Raise e, m1) ->
  m1 = m /\ raises m p e /\ ~ callable m p.
Proof.
  intros Hrun. destruct (callable_or_raises p m) as [H | [e' He]].
  - destruct (run_callable p m H) as [[_ (line & _ & Hr)] | [_ (raw & new & _ & _ & _ & Hr)]];
      rewrite Hr in Hrun; discriminate.
  - pose proof (run_raises _ _ _ He) as Hr. rewrite Hr in Hrun.
    injection Hrun as <- <-. split; [reflexivity|]. split; [exact He|].
    intros Hc.
    destruct (run_callable p m Hc) as [[_ (line & _ & Hr')] | [_ (raw & new & _ & _ & _ & Hr')]];
      rewrite Hr' in Hr; discriminate.
Qed.

(** * The specification *)

(** C1, amended.  On the class of the scenario with its accessors in the
    three-line form the function writes the file back with the block (an
    empty line, the marker line, the declaration of [getName] and that of
    [IsActive], in this order) immediately before the final closing brace;
    applied again to the result it prints the guard's skip and nothing
    changes.  On the four lines with each accessor on one line it extracts
    nothing and leaves the file as it is. *)
Theorem C1_scenario :
  let w := only_file three_line_class in
  let w1 := rewritten E_java three_line_class_out w in
  add_java_bean_getters E_java w = (Ok true, w1)
  /\ split_nl three_line_class_out = class_head ++ scenario_block ++ [lit "}"]
  /\ add_java_bean_getters E_java w1
     = (Ok false, emit (Print (msg_skip_marker E_java)) w1)
  /\ add_java_bean_getters E_java (only_file one_line_class)
     = (Ok false, emit (Print (msg_skip_none E_java)) (only_file one_line_class)).
Proof. vm_compute. repeat split. Qed.

(** C2.  Idempotence, on a file that reads as text and that may be opened
    for writing when its text asks for a write-back: after one
    application a second application returns [False], prints one line and
    writes nothing, so the file is as the first application left it; when
    the first application wrote the file, the marker comment is in the
    text that the file then reads as and the second application is the
    guard's skip. *)
Theorem C2_idempotent (file_path content : str) (w : world) :
  text_of w file_path = Some content ->
  quiet content = true \/ can_write w file_path = true ->
  exists (updated : bool) (w1 : world) (line : str),
    add_java_bean_getters file_path w = (Ok updated, w1)
    /\ add_java_bean_getters file_path w1 = (Ok false, emit (Print line) w1)
    /\ (updated = true ->
        line = msg_skip_marker file_path
        /\ exists new_content,
             text_of w1 file_path = Some new_content
             /\ contains marker new_content = true).
Proof.
  intros Hfile Hcan. rewrite (add_java_bean_getters_on_text _ _ _ Hfile).
  destruct (contains marker content) eqn:Em.
  { eexists false, _, _. split; [reflexivity|]. split; [|discriminate].
    rewrite (add_java_bean_getters_on_text _ content) by exact Hfile.
    rewrite Em. reflexivity. }
  destruct (synthesize_extracted content) as (decls & Hsyn & _).
  destruct (findall accessor_pattern content) as [|a more] eqn:Ef.
  { eexists false, _, _. split; [reflexivity|]. split; [|discriminate].
    rewrite (add_java_bean_getters_on_text _ content) by exact Hfile.
    rewrite Em, Ef. reflexivity. }
  rewrite Hsyn.
  destruct (insert_getters content (marker_entry :: decls)) as [new_content|] eqn:Ei.
  - assert (Hwrite : can_write w file_path = true).
    { destruct Hcan as [Hq | Hw]; [|exact Hw].
      unfold quiet in Hq. rewrite Em, Ef in Hq. unfold insert_getters in Ei.
      destruct (last_brace_idx (split_nl content)); discriminate. }
    rewrite Hwrite.
    pose proof (marker_round_trip (linesep w) _ (insert_getters_marker _ _ _ Ei))
      as Hmark.
    pose proof (text_of_rewritten w file_path content new_content Hfile) as Hnew.
    eexists true, _, _. split; [reflexivity|].
    rewrite (add_java_bean_getters_on_text _ _ _ Hnew), Hmark.
    split; [reflexivity|]. intros _. eauto.
  - eexists false, _, _. split; [reflexivity|]. split; [|discriminate].
    rewrite (add_java_bean_getters_on_text _ content) by exact Hfile.
    rewrite Em, Ef, Hsyn, Ei. reflexivity.
Qed.

(** C3.  The naming rule, for a non-empty accessor name [c :: rest]: when
    the return type is exactly [boolean] and the name starts with [is], the
    alternate name is the name with its first letter upper-cased, of the
    form [Is<Rest>]; in every other case it is [get] followed by the name
    with its first letter upper-cased.  The name is a function of the
    return type and the accessor name alone. *)
Theorem C3_naming_rule (return_type accessor_name : str) :
  accessor_name <> [] ->
  exists (c : N) (rest : str),
    accessor_name = c :: rest
    /\ (return_type = lit "boolean" /\ (exists r, accessor_name = lit "is" ++ r) ->
        getter_name return_type accessor_name = Ok (upper1 c ++ rest)
        /\ exists r, upper1 c ++ rest = lit "Is" ++ r)
    /\ (~ (return_type = lit "boolean" /\ exists r, accessor_name = lit "is" ++ r) ->
        getter_name return_type accessor_name = Ok (lit "get" ++ upper1 c ++ rest)).
Proof.
  intros Hne. destruct accessor_name as [|c rest]; [contradiction|].
  exists c, rest. split; [reflexivity|].
  rewrite getter_name_cons. split.
  - intros [-> [r Hr]].
    assert (Hs : startswith (c :: rest) (lit "is") = true)
      by (apply startswith_spec; eauto).
    rewrite Hs. split; [reflexivity|].
    injection Hr as -> ->. exists r. reflexivity.
  - intros Hnot.
    destruct (str_eqb return_type (lit "boolean")) eqn:Et; [|reflexivity].
    destruct (startswith (c :: rest) (lit "is")) eqn:Es; [|reflexivity].
    destruct Hnot. split; [apply str_eqb_eq; exact Et|].
    apply startswith_spec. exact Es.
Qed.

(** C4.  The insertion engine: when some line of the document is a closing
    brace once trimmed, the lines split as [pre], the last such line [l]
    and the lines [post] after it, none of which is one; the new content
    is the lines [pre], the synthesized block, [l] and [post], joined: the
    block stands immediately before [l] and every line of the document is
    there unchanged, in order. *)
Theorem C4_insert_before_last_brace (content : str) (getters : list str) :
  Exists (fun l => strip l = lit "}") (split_nl content) ->
  exists (pre : list str) (l : str) (post : list str) (new_content : str),
    split_nl content = pre ++ l :: post
    /\ strip l = lit "}"
    /\ Forall (fun l' => strip l' <> lit "}") post
    /\ insert_getters content getters = Some new_content
    /\ new_content = join_nl (pre ++ join_nl getters :: l :: post)
    /\ split_nl new_content = pre ++ split_nl (join_nl getters) ++ l :: post.
Proof.
  intros Hex.
  destruct (insert_getters content getters) as [new_content|] eqn:E.
  - apply insert_getters_some in E as (pre & l & post & Hsplit & Hl & Hpost & ->).
    exists pre, l, post. eexists. repeat split; try eassumption.
    pose proof (split_nl_lines content) as Hlines. rewrite Hsplit in Hlines.
    apply Forall_app in Hlines as [Hpre Hrest].
    apply (split_join_middle pre (l :: post)); assumption.
  - apply insert_getters_none in E.
    apply List.Exists_exists in Hex as (l & Hin & Hl).
    rewrite List.Forall_forall in E. destruct (E l Hin Hl).
Qed.

(** C5, amended.  Content preservation, when the function returns [True],
    which is when it writes the file back.  The text read, in which every
    line end reads as a newline, splits as [pre ++ post], and the one
    text written is [pre], the synthesized block with the newline that
    ends it, and [post].  The file then holds that text with each newline
    as the line separator of the platform: without the block, it is the
    text read with its newlines as that separator.  So when the line ends
    of the file were that separator already, its old content is what
    stands, unchanged, around the inserted block. *)
Theorem C5_text_preserved (file_path raw : str) (m m1 : world) :
  files m !! file_path = Some (Utf8 raw) ->
  add_java_bean_getters file_path m = (Ok true, m1) ->
  exists (getters : list str) (pre post : str),
    synthesize (findall accessor_pattern (universal_newlines raw)) = Ok getters
    /\ universal_newlines raw = pre ++ post
    /\ trace m1
       = trace m ++ [Write file_path (pre ++ (join_nl getters ++ [NL]) ++ post);
                     Print (msg_updated file_path)]
    /\ files m1
       = <[file_path := Utf8 (to_linesep (linesep m) pre
                              ++ to_linesep (linesep m) (join_nl getters ++ [NL])
                              ++ to_linesep (linesep m) post)]> (files m)
    /\ to_linesep (linesep m) pre ++ to_linesep (linesep m) post
       = to_linesep (linesep m) (universal_newlines raw)
    /\ (to_linesep (linesep m) (universal_newlines raw) = raw ->
        raw = to_linesep (linesep m) pre ++ to_linesep (linesep m) post).
Proof.
  intros Hfile Hrun.
  destruct (can_read m file_path) eqn:Hread.
  2:{ rewrite (run_raises file_path m (OSError file_path)) in Hrun; [discriminate|].
      right. left. rewrite Hfile. eauto. }
  destruct (run_quiet _ _ m Hfile Hread)
    as [[_ (line & _ & _ & Hr)] | [_ (getters & new & Hsyn & Hins & _ & Hr)]];
    rewrite Hr in Hrun; [discriminate|].
  destruct (can_write m file_path); [|discriminate]. injection Hrun as <-.
  apply insert_getters_some in Hins as (pre & l & post & Hsplit & _ & _ & ->).
  exists getters, (terminated pre), (join_nl (l :: post)).
  assert (Hnew : join_nl (pre ++ join_nl getters :: l :: post)
                 = terminated pre ++ (join_nl getters ++ [NL]) ++ join_nl (l :: post)).
  { rewrite join_nl_app by discriminate. rewrite join_nl_cons by discriminate.
    rewrite <- app_assoc. reflexivity. }
  assert (Hold : universal_newlines raw = terminated pre ++ join_nl (l :: post)).
  { rewrite <- (join_split (universal_newlines raw)), Hsplit.
    apply join_nl_app. discriminate. }
  rewrite Hnew. split; [exact Hsyn|]. split; [exact Hold|].
  split; [simpl; rewrite <- app_assoc; reflexivity|].
  split; [simpl; rewrite !to_linesep_app; reflexivity|].
  split; [rewrite <- to_linesep_app, <- Hold; reflexivity|].
  intros Hsame. rewrite <- to_linesep_app, <- Hold. symmetry. exact Hsame.
Qed.

(** C6.  No-op on miss: when the extractor yields no triple, the function
    returns [False] and its only effect is one printed line; nothing is
    written, not even an unchanged copy, and no marker block is made. *)
Theorem C6_no_accessors_no_write (file_path content : str) (w : world) :
  text_of w file_path = Some content ->
  findall accessor_pattern content = [] ->
  add_java_bean_getters file_path w =
  (Ok false,
   emit (Print (if contains marker content then msg_skip_marker file_path
                else msg_skip_none file_path)) w).
Proof.
  intros Hfile Hnone. rewrite (add_java_bean_getters_on_text _ _ _ Hfile), Hnone.
  destruct (contains marker content); reflexivity.
Qed.

(** C7, amended.  When the content passes the guard, holds at least one
    accessor and has no line that is a closing brace once trimmed, the
    function prints the warning with the file path, writes nothing and
    returns [False], and the loop over the files counts the file and goes
    on with the next one. *)
Theorem C7_no_closing_brace (file_path content : str) (w : world) :
  text_of w file_path = Some content ->
  contains marker content = false ->
  findall accessor_pattern content <> [] ->
  Forall (fun l => strip l <> lit "}") (split_nl content) ->
  add_java_bean_getters file_path w =
    (Ok false, emit (Print (msg_no_brace file_path)) w)
  /\ forall (more : list str) (counts : nat * nat),
       for_files (file_path :: more) counts w =
       for_files more (fst counts, S (snd counts))
                 (emit (Print (msg_no_brace file_path)) w).
Proof.
  intros Hfile Hmark Hacc Hlines.
  assert (Hrun : add_java_bean_getters file_path w =
                 (Ok false, emit (Print (msg_no_brace file_path)) w)).
  { rewrite (add_java_bean_getters_on_text _ _ _ Hfile), Hmark.
    destruct (synthesize_extracted content) as (decls & Hsyn & _).
    destruct (findall accessor_pattern content) as [|a more]; [contradiction|].
    rewrite Hsyn.
    rewrite (proj2 (insert_getters_none content (marker_entry :: decls)) Hlines).
    reflexivity. }
  split; [exact Hrun|].
  intros more counts. simpl. unfold bind at 1. rewrite Hrun. reflexivity.
Qed.

(** A text whose characters all differ from the newline holds none. *)
Lemma not_in_nl (l : str) :
  forallb (fun c => negb (c =? NL)) l = true -> ~ In NL l.
Proof.
  induction l as [|c l IH]; simpl; [intros _ []|].
  intros H [Hc | Hin]; apply andb_prop in H as [H1 H2].
  - subst c. discriminate H1.
  - exact (IH H2 Hin).
Qed.

(** A run of word characters holds no newline. *)
Lemma isword_not_nl (n : str) : forallb isword n = true -> ~ In NL n.
Proof.
  induction n as [|c n IH]; simpl; [intros _ []|].
  intros H [Hc | Hin]; apply andb_prop in H as [H1 H2].
  - subst c. discriminate H1.
  - exact (IH H2 Hin).
Qed.

(** Upper-casing a word character gives no newline, when the table of the
    characters above ASCII gives none. *)
Lemma upper1_not_nl (c : N) :
  (forall c', (128 <= c')%N -> ~ In NL (db_upper U c')) ->
  isword c = true -> ~ In NL (upper1 c).
Proof.
  intros Hdb Hw. unfold upper1. destruct (c <? 128) eqn:Hc.
  - destruct ((97 <=? c) && (c <=? 122)) eqn:Hlow.
    + apply andb_prop in Hlow as [H1 _]. apply N.leb_le in H1.
      intros [Heq | []]. unfold NL in Heq. lia.
    + intros [Heq | []]. subst c. vm_compute in Hw. discriminate Hw.
  - apply Hdb. apply N.ltb_ge in Hc. exact Hc.
Qed.

(** A declaration holds a newline exactly when its return type does. *)
Lemma getter_decl_newline (t n f g : str) :
  (forall c, (128 <= c)%N -> ~ In NL (db_upper U c)) ->
  forallb isword n = true -> forallb isword f = true ->
  getter_name t n = Ok g ->
  In NL (getter_decl t g f) <-> In NL t.
Proof.
  intros Hdb Hn Hf Hg.
  assert (Hgn : ~ In NL g).
  { destruct n as [|c tl].
    { unfold getter_name in Hg.
      destruct (str_eqb t (lit "boolean") && startswith [] (lit "is"));
        discriminate Hg. }
    rewrite getter_name_cons in Hg.
    assert (Hg' : g = if str_eqb t (lit "boolean") && startswith (c :: tl) (lit "is")
                      then upper1 c ++ tl else lit "get" ++ upper1 c ++ tl)
      by congruence.
    rewrite Hg'. clear Hg Hg'.
    change (forallb isword (c :: tl)) with (isword c && forallb isword tl) in Hn.
    apply andb_prop in Hn as [Hc Htl].
    pose proof (upper1_not_nl c Hdb Hc) as Hu.
    pose proof (isword_not_nl tl Htl) as Ht.
    destruct (str_eqb t (lit "boolean") && startswith (c :: tl) (lit "is"));
      rewrite ?in_app_iff; intros H.
    - tauto.
    - destruct H as [H | H]; [|tauto].
      revert H. apply not_in_nl. reflexivity. }
  pose proof (isword_not_nl f Hf) as Hfn.
  assert (H1 : ~ In NL (lit "    public ")) by (apply not_in_nl; reflexivity).
  assert (H2 : ~ In NL (lit " ")) by (apply not_in_nl; reflexivity).
  assert (H3 : ~ In NL (lit "() { return ")) by (apply not_in_nl; reflexivity).
  assert (H4 : ~ In NL (lit "; }")) by (apply not_in_nl; reflexivity).
  unfold getter_decl. rewrite !in_app_iff. tauto.
Qed.

Lemma Forall2_impl_In_left {A B} (P Q : A -> B -> Prop) (l : list A) (k : list B) :
  Forall2 P l k -> (forall x y, In x l -> P x y -> Q x y) -> Forall2 Q l k.
Proof.
  induction 1 as [|x y l k Hxy _ IH]; intros HPQ; constructor.
  - apply HPQ; [left; reflexivity | exact Hxy].
  - apply IH. intros x' y' Hin. apply HPQ. right. exact Hin.
Qed.

(** C8, amended.  The synthesizer, on the triples extracted from any
    content.  The list of getters is the marker entry followed by one
    declaration per triple, in extraction order, each the text
    [    public <returnType> <alternateName>() { return <fieldName>; }].
    As lines, the block is an empty line, the marker comment line, then
    the lines of the declarations, one after the other.  A declaration
    holds a newline exactly when its return type does; so when no return
    type holds one, the block has exactly one declaration line per
    triple, and as many lines as there are triples and two more.  (The
    upper case of a character is taken to hold no newline.) *)
Theorem C8_synthesized_block (content : str) :
  exists decls : list str,
    synthesize (findall accessor_pattern content) = Ok (marker_entry :: decls)
    /\ marker_entry = NL :: lit "    " ++ marker
    /\ length decls = length (findall accessor_pattern content)
    /\ Forall2 (fun (a : str * str * str) (d : str) =>
                  let '(return_type, accessor_name, field_name) := a in
                  exists alternate_name,
                    getter_name return_type accessor_name = Ok alternate_name
                    /\ d = lit "    public " ++ return_type ++ lit " "
                             ++ alternate_name ++ lit "() { return "
                             ++ field_name ++ lit "; }"
                    /\ ((forall c, (128 <= c)%N -> ~ In NL (db_upper U c)) ->
                        (In NL d <-> In NL return_type)))
               (findall accessor_pattern content) decls
    /\ split_nl (join_nl (marker_entry :: decls))
       = [] :: (lit "    " ++ marker) :: flat_map split_nl decls
    /\ ((forall c, (128 <= c)%N -> ~ In NL (db_upper U c)) ->
        Forall (fun a : str * str * str => ~ In NL (fst (fst a)))
               (findall accessor_pattern content) ->
        split_nl (join_nl (marker_entry :: decls))
        = [] :: (lit "    " ++ marker) :: decls
        /\ length (split_nl (join_nl (marker_entry :: decls)))
           = (2 + length (findall accessor_pattern content))%nat).
Proof.
  destruct (synthesize_extracted content) as (decls & Hsyn & Hall).
  pose proof (Forall2_length _ _ _ Hall) as Hlen.
  assert (Hlines : split_nl (join_nl (marker_entry :: decls))
                   = [] :: (lit "    " ++ marker) :: flat_map split_nl decls).
  { rewrite split_join by discriminate.
    change (flat_map split_nl (marker_entry :: decls))
      with (split_nl marker_entry ++ flat_map split_nl decls).
    reflexivity. }
  assert (Hshape :
    Forall2 (fun (a : str * str * str) (d : str) =>
               let '(return_type, accessor_name, field_name) := a in
               exists alternate_name,
                 getter_name return_type accessor_name = Ok alternate_name
                 /\ d = lit "    public " ++ return_type ++ lit " "
                          ++ alternate_name ++ lit "() { return "
                          ++ field_name ++ lit "; }"
                 /\ ((forall c, (128 <= c)%N -> ~ In NL (db_upper U c)) ->
                     (In NL d <-> In NL return_type)))
            (findall accessor_pattern content) decls).
  { eapply Forall2_impl_In_left; [exact Hall|].
    intros [[t n] f] d Hin (g & Hg & ->). exists g.
    split; [exact Hg|]. split; [reflexivity|]. intros Hdb.
    apply findall_accessor_text in Hin as (pre & s & post & _ & Hs).
    destruct Hs as (w1 & w2 & w3 & w4 & w5 & w6 & w7 & w8
                    & _ & _ & _ & _ & _ & _ & Hn & _ & Hf & _).
    exact (getter_decl_newline t n f g Hdb Hn Hf Hg). }
  exists decls. split; [exact Hsyn|]. split; [reflexivity|].
  split; [symmetry; exact Hlen|]. split; [exact Hshape|].
  split; [exact Hlines|].
  intros Hdb Htypes.
  assert (Hone : Forall (fun d => ~ In NL d) decls).
  { clear Hlines Hsyn Hall Hlen.
    induction Hshape as [|[[t n] f] d l k (g & _ & _ & Hnl) _ IH];
      [constructor|].
    inversion Htypes as [|? ? Ht Hmore]; subst. simpl in Ht.
    constructor; [|exact (IH Hmore)].
    intros Hd. apply Ht. apply (Hnl Hdb). exact Hd. }
  rewrite Hlines, (flat_map_one_line _ Hone).
  split; [reflexivity|]. simpl. rewrite Hlen. reflexivity.
Qed.

(** C9, amended.  The extractor matches only where the opening brace of
    the body is followed, after white space at most, by a newline, before
    the [return]; a text with no newline yields no triple; and when every
    declaration that the synthesizer emits is a single line, neither a
    declaration nor the whole synthesized block yields a triple. *)
Theorem C9_matches_need_newline (content : str) :
  (forall t n f,
     In (t, n, f) (findall accessor_pattern content) ->
     exists pre s post head w tail,
       content = pre ++ s ++ post /\ accessor_text s t n f
       /\ s = head ++ ch "{" :: w ++ NL :: tail /\ forallb isspace w = true)
  /\ (~ In NL content -> findall accessor_pattern content = [])
  /\ (forall (accessors : list (str * str * str)) (getters : list str),
        synthesize accessors = Ok getters ->
        Forall (fun d => ~ In NL d) (tl getters) ->
        Forall (fun d => findall accessor_pattern d = []) (tl getters)
        /\ findall accessor_pattern (join_nl getters) = []).
Proof.
  split; [|split].
  - intros t n f Hin.
    apply findall_accessor_text in Hin as (pre & s & post & -> & Hs).
    destruct (accessor_text_newline _ _ _ _ Hs) as (head & w & tail & Hshape & Hw).
    exists pre, s, post, head, w, tail. auto.
  - apply findall_needs_newline.
  - intros accessors getters Hsyn Hlines.
    apply getters_loop_decls in Hsyn as (decls & -> & Hdecls).
    change (tl ([marker_entry] ++ decls)) with decls in *.
    change ([marker_entry] ++ decls) with (marker_entry :: decls).
    split.
    + eapply Forall_impl; [exact Hlines|]. intros d. apply findall_needs_newline.
    + destruct (findall accessor_pattern (join_nl (marker_entry :: decls)))
        as [|a more] eqn:E; [reflexivity|].
      destruct (closed_lines_no_brace_newline
                  (lit "    // JavaBean-style getters" :: decls)).
      * constructor.
        -- split; [vm_compute; intuition discriminate|].
           exists (lit "    // JavaBean-style getter"), (ch "s").
           repeat split. intros H. vm_compute in H. discriminate H.
        -- apply List.Forall_forall. intros d Hd.
           rewrite List.Forall_forall in Hlines, Hdecls.
           destruct (Hdecls d Hd) as [body ->].
           split; [exact (Hlines _ Hd)|].
           exists body, (ch "}"). repeat split.
           intros H. vm_compute in H. discriminate H.
      * change (flat_map (fun p => NL :: p)
                  (lit "    // JavaBean-style getters" :: decls))
          with (marker_entry ++ flat_map (fun p => NL :: p) decls).
        rewrite <- join_nl_head. apply findall_brace_newline.
        rewrite E. discriminate.
Qed.

(** C10.  The extractor matches only where [public] directly follows four
    space characters: every triple is read off a text that starts with
    them, and a content in which [public] nowhere follows four spaces, as
    when the declarations stand at column zero or after a tab, yields no
    triple. *)
Theorem C10_four_spaces_before_public (content : str) :
  (forall t n f,
     In (t, n, f) (findall accessor_pattern content) ->
     exists pre s post tail,
       content = pre ++ s ++ post /\ accessor_text s t n f
       /\ s = ch " " :: ch " " :: ch " " :: ch " " :: lit "public" ++ tail)
  /\ (contains (lit "    public") content = false ->
      findall accessor_pattern content = []).
Proof.
  assert (Hshape : forall t n f,
     In (t, n, f) (findall accessor_pattern content) ->
     exists pre s post tail,
       content = pre ++ s ++ post /\ accessor_text s t n f
       /\ s = lit "    public" ++ tail).
  { intros t n f Hin.
    apply findall_accessor_text in Hin as (pre & s & post & -> & Hs).
    exists pre, s, post.
    destruct Hs as (w1 & w2 & w3 & w4 & w5 & w6 & w7 & w8 & Heq & Hrest).
    eexists. split; [reflexivity|]. split; [|exact Heq].
    exists w1, w2, w3, w4, w5, w6, w7, w8. auto. }
  split; [exact Hshape|].
  intros Hno.
  destruct (findall accessor_pattern content) as [|[[t n] f] more] eqn:E;
    [reflexivity|].
  destruct (Hshape t n f) as (pre & s & post & tail & -> & _ & ->);
    [left; reflexivity|].
  rewrite <- app_assoc in Hno. rewrite contains_middle in Hno. discriminate.
Qed.

(** * Further properties of the code *)

(** ** Completeness of the engine *)

Lemma rep_match_complete {A} (p : N -> bool) (inp : str) (k : str -> option A) :
  forall lo : nat,
    rep_match p lo inp k = None ->
    forall s rest,
      inp = s ++ rest -> forallb p s = true -> (lo <= length s)%nat ->
      k rest = None.
Proof.
  induction inp as [|c inp IH]; intros lo H s rest Heq Hs Hlo.
  - destruct s; [|discriminate]. simpl in Heq. subst rest.
    simpl in Hlo. destruct lo; [exact H | lia].
  - destruct s as [|x s].
    + simpl in Heq. subst rest. simpl in Hlo. destruct lo; [|lia].
      simpl in H. destruct (p c); [|exact H].
      destruct (rep_match p 0 inp k); [discriminate | exact H].
    + injection Heq as <- ->. simpl in Hs. apply andb_prop in Hs as [Hx Hs].
      simpl in H. rewrite Hx in H.
      destruct (rep_match p (pred lo) (s ++ rest) k) eqn:E; [discriminate|].
      apply (IH (pred lo) E s rest eq_refl Hs). simpl in Hlo. lia.
Qed.

(** When the engine gives no answer, no match of the pattern on a prefix
    of the input leads the continuation to one. *)
Lemma rx_match_complete {A} (r : regex) :
  forall (inp : str) (caps : captures) (k : str -> captures -> option A),
    rx_match r inp caps k = None ->
    forall s rest caps',
      inp = s ++ rest -> rx_lang r s caps caps' -> k rest caps' = None.
Proof.
  induction r as [|c|lo p|r IH|r1 IH1 r2 IH2|i r IH];
    intros inp caps k H s rest caps' Heq Hl; simpl in H, Hl.
  - destruct Hl as [-> ->]. simpl in Heq. subst. exact H.
  - destruct Hl as [-> ->]. simpl in Heq. subst inp.
    rewrite N.eqb_refl in H. exact H.
  - destruct Hl as (Hs & Hlo & ->).
    exact (rep_match_complete p inp _ lo H s rest Heq Hs Hlo).
  - destruct (rx_match r inp caps k) eqn:E; [discriminate|].
    destruct Hl as [Hl | [-> ->]].
    + exact (IH _ _ _ E _ _ _ Heq Hl).
    + simpl in Heq. subst. exact H.
  - destruct Hl as (s1 & s2 & c1 & -> & Hl1 & Hl2).
    rewrite <- app_assoc in Heq.
    pose proof (IH1 _ _ _ H s1 (s2 ++ rest) c1 Heq Hl1) as H2.
    exact (IH2 _ _ _ H2 s2 rest caps' eq_refl Hl2).
  - destruct Hl as (c1 & Hl & ->).
    pose proof (IH _ _ _ H s rest c1 Heq Hl) as Hk. simpl in Hk.
    subst inp. rewrite length_app, Nat.add_sub, take_app_length in Hk.
    exact Hk.
Qed.

Lemma match_at_complete (r : regex) (s rest : str) (caps : captures) :
  rx_lang r s no_groups caps -> match_at r (s ++ rest) <> None.
Proof.
  intros Hl Hnone. unfold match_at in Hnone.
  pose proof (rx_match_complete r _ _ _ Hnone s rest caps eq_refl Hl).
  discriminate.
Qed.

Lemma rx_lang_seq_intro (r : regex) (rs : list regex) (s1 s2 : str)
    (c c1 c' : captures) :
  rx_lang r s1 c c1 -> rx_lang (seq_of rs) s2 c1 c' ->
  rx_lang (seq_of (r :: rs)) (s1 ++ s2) c c'.
Proof. intros H1 H2. exists s1, s2, c1. auto. Qed.

Lemma rx_lang_literal_intro (l : str) (c : captures) :
  rx_lang (seq_of (List.map Chr l)) l c c.
Proof.
  induction l as [|x l IH]; simpl; [auto|].
  exists [x], l, c. simpl. auto.
Qed.

Lemma length_nonempty {A} (l : list A) : l <> [] -> (1 <= length l)%nat.
Proof. destruct l; simpl; [contradiction | lia]. Qed.

(** A text of the accessor shape is a match of the pattern. *)
Lemma accessor_text_lang (s t n f : str) :
  accessor_text s t n f -> exists caps, rx_lang accessor_pattern s no_groups caps.
Proof.
  intros (w1 & w2 & w3 & w4 & w5 & w6 & w7 & w8 & -> & Hw & H1 & H2 & H6
          & Ht & Hn & Hn' & Hf & Hf').
  inversion Hw as [|? ? Hw1 Hw']; subst. inversion Hw' as [|? ? Hw2 Hw'']; subst.
  inversion Hw'' as [|? ? Hw3 Hx]; subst. inversion Hx as [|? ? Hw4 Hy]; subst.
  inversion Hy as [|? ? Hw5 Hz]; subst. inversion Hz as [|? ? Hw6 Hu]; subst.
  inversion Hu as [|? ? Hw7 Hv]; subst. inversion Hv as [|? ? Hw8 _]; subst.
  assert (Hgrp : rx_lang
            (Grp 1 (seq_of [Rep 1 nonspace;
                            Opt (seq_of [Chr (ch "<"); Rep 1 not_gt; Chr (ch ">")])]))
            t no_groups (set_group 1 t no_groups)).
  { destruct Ht as (base & generic & -> & Hb & Hbs & Hg).
    exists no_groups. split; [|reflexivity].
    apply rx_lang_seq_intro with (c1 := no_groups).
    - simpl. auto using length_nonempty.
    - rewrite <- (app_nil_r generic).
      apply rx_lang_seq_intro with (c1 := no_groups); [|simpl; auto].
      destruct Hg as [-> | (inner & -> & Hi & His)]; [right; auto|].
      left. change (ch "<" :: inner ++ [ch ">"])
              with ([ch "<"] ++ inner ++ [ch ">"] ++ []).
      apply rx_lang_seq_intro with (c1 := no_groups); [simpl; auto|].
      apply rx_lang_seq_intro with (c1 := no_groups);
        [simpl; auto using length_nonempty|].
      apply rx_lang_seq_intro with (c1 := no_groups); simpl; auto. }
  eexists.
  change (lit "    public" ++ w1 ++ t ++ w2 ++ n ++ lit "()" ++ w3
          ++ ch "{" :: w4 ++ NL :: w5 ++ lit "return" ++ w6 ++ f
          ++ ch ";" :: w7 ++ NL :: w8 ++ [ch "}"])
    with (lit "    public" ++ w1 ++ t ++ w2 ++ n ++ [ch "("] ++ [ch ")"] ++ w3
          ++ [ch "{"] ++ w4 ++ [NL] ++ w5 ++ lit "return" ++ w6 ++ f
          ++ [ch ";"] ++ w7 ++ [NL] ++ w8 ++ [ch "}"] ++ []).
  unfold accessor_pattern.
  apply rx_lang_seq_intro with (c1 := no_groups);
    [apply rx_lang_literal_intro|].
  apply rx_lang_seq_intro with (c1 := no_groups);
    [simpl; auto using length_nonempty|].
  eapply rx_lang_seq_intro; [exact Hgrp|].
  eapply rx_lang_seq_intro; [simpl; eauto using length_nonempty|].
  eapply rx_lang_seq_intro;
    [exists (set_group 1 t no_groups); simpl; eauto using length_nonempty|].
  eapply rx_lang_seq_intro; [simpl; eauto|].
  eapply rx_lang_seq_intro; [simpl; eauto|].
  eapply rx_lang_seq_intro; [simpl; split; [exact Hw3 | split; [lia | reflexivity]]|].
  eapply rx_lang_seq_intro; [simpl; eauto|].
  eapply rx_lang_seq_intro; [simpl; split; [exact Hw4 | split; [lia | reflexivity]]|].
  eapply rx_lang_seq_intro; [simpl; eauto|].
  eapply rx_lang_seq_intro; [simpl; split; [exact Hw5 | split; [lia | reflexivity]]|].
  eapply rx_lang_seq_intro; [apply rx_lang_literal_intro|].
  eapply rx_lang_seq_intro; [simpl; eauto using length_nonempty|].
  eapply rx_lang_seq_intro;
    [eexists; simpl; split; [eauto using length_nonempty | reflexivity]|].
  eapply rx_lang_seq_intro; [simpl; eauto|].
  eapply rx_lang_seq_intro; [simpl; split; [exact Hw7 | split; [lia | reflexivity]]|].
  eapply rx_lang_seq_intro; [simpl; eauto|].
  eapply rx_lang_seq_intro; [simpl; split; [exact Hw8 | split; [lia | reflexivity]]|].
  eapply rx_lang_seq_intro; [simpl; eauto|].
  simpl. auto.
Qed.

Lemma accessor_text_nonempty (s t n f : str) : accessor_text s t n f -> s <> [].
Proof. intros (w1 & w2 & w3 & w4 & w5 & w6 & w7 & w8 & -> & _). discriminate. Qed.

(** The pattern matches at the head of a text exactly when the text
    starts with an accessor text. *)
Lemma match_at_starts_accessor (u : str) :
  match_at accessor_pattern u <> None <-> starts_accessor u.
Proof.
  split.
  - destruct (match_at accessor_pattern u) as [[rest caps]|] eqn:E; [|congruence].
    intros _. apply match_at_sound in E as (s & -> & Hl).
    exists s, rest, (caps 1%nat), (caps 2%nat), (caps 3%nat).
    split; [reflexivity|]. apply accessor_pattern_lang. exact Hl.
  - intros (s & post & t & n & f & -> & Hs).
    apply accessor_text_lang in Hs as [caps Hl].
    exact (match_at_complete _ _ _ _ Hl).
Qed.

(** ** What the extractor returns *)

Lemma scan_nil_iff (r : regex) (inp : str) :
  scan r inp 0 = [] <->
  forall a b, inp = a ++ b -> b <> [] -> match_at r b = None.
Proof.
  induction inp as [|c inp IH]; simpl.
  - split; [|reflexivity]. intros _ a b Heq Hb.
    destruct a; destruct b; try discriminate. contradiction.
  - destruct (match_at r (c :: inp)) as [[rest' caps]|] eqn:E.
    + split; [discriminate|]. intros H.
      rewrite (H [] (c :: inp) eq_refl) in E by discriminate. discriminate.
    + rewrite IH. split.
      * intros H a b Heq Hb. destruct a as [|x a]; simpl in Heq.
        -- subst b. exact E.
        -- injection Heq as _ ->. eauto.
      * intros H a b -> Hb. apply (H (c :: a) b); auto.
Qed.

(** X1.  No false negatives and no false positives at the level of the
    shape: the extractor yields no triple exactly when no accessor text,
    as the pattern describes it, starts anywhere in the content. *)
Theorem X1_no_triple_iff_no_accessor_text (content : str) :
  findall accessor_pattern content = [] <->
  forall a b, content = a ++ b -> ~ starts_accessor b.
Proof.
  unfold findall. rewrite scan_nil_iff. split; intros H a b Heq.
  - intros Hs. destruct b as [|x b].
    + destruct Hs as (s & post & t & n & f & Hnil & Hs).
      apply accessor_text_nonempty in Hs. destruct s; [contradiction | discriminate].
    + apply match_at_starts_accessor in Hs. apply Hs.
      apply (H a _ Heq). discriminate.
  - intros _. destruct (match_at accessor_pattern b) eqn:E; [|reflexivity].
    destruct (H a b Heq). apply match_at_starts_accessor. rewrite E. discriminate.
Qed.

Lemma occurrences_step (c : N) (rest : str) (xs : list (str * str * str)) :
  ~ starts_accessor (c :: rest) ->
  occurrences rest xs -> occurrences (c :: rest) xs.
Proof.
  intros Hno Hocc. inversion Hocc as [text Hnone | gap s rest' t n f more Hgap Hs Hmore];
    subst.
  - apply occ_none. intros a b Heq. destruct a as [|x a]; simpl in Heq.
    + subst b. exact Hno.
    + injection Heq as _ ->. eauto.
  - change (c :: gap ++ s ++ rest') with ((c :: gap) ++ s ++ rest').
    apply occ_next; [|exact Hs | exact Hmore].
    intros a b Heq Hb. destruct a as [|x a]; simpl in Heq.
    + subst b. exact Hno.
    + injection Heq as _ ->. eauto.
Qed.

Lemma scan_occurrences (inp : str) :
  forall skip : nat,
    (skip <= length inp)%nat ->
    occurrences (drop skip inp) (scan accessor_pattern inp skip).
Proof.
  induction inp as [|c inp IH]; intros skip Hskip.
  - simpl in Hskip. replace skip with 0%nat by lia. simpl.
    apply occ_none. intros a b Heq (s & post & t & n & f & Hb & Hs).
    apply accessor_text_nonempty in Hs.
    destruct a; destruct b; try discriminate. destruct s; [contradiction | discriminate].
  - destruct skip as [|k]; simpl.
    + destruct (match_at accessor_pattern (c :: inp)) as [[rest' caps]|] eqn:E.
      * apply match_at_sound in E as (s & Heq & Hl).
        apply accessor_pattern_lang in Hl.
        pose proof (accessor_text_nonempty _ _ _ _ Hl) as Hne.
        destruct s as [|x s]; [contradiction|]. injection Heq as <- ->.
        rewrite length_app, Nat.add_sub.
        change (c :: s ++ rest') with ([] ++ (c :: s) ++ rest').
        apply occ_next; [intros a b Hab Hb; destruct a; destruct b; try discriminate;
                         contradiction | exact Hl |].
        pose proof (IH (length s)) as Hrest.
        rewrite drop_app_length in Hrest. apply Hrest.
        rewrite length_app. lia.
      * apply occurrences_step.
        -- intros Hs. apply match_at_starts_accessor in Hs. contradiction.
        -- apply (IH 0%nat). lia.
    + apply IH. simpl in Hskip. lia.
Qed.

(** X2.  The triples come out in document order and from texts that do
    not overlap: the content reads as a gap in which no accessor text
    starts, the accessor text of the first triple, and then the same again
    for what follows it. *)
Theorem X2_extraction_left_to_right (content : str) :
  occurrences content (findall accessor_pattern content).
Proof. exact (scan_occurrences content 0 (Nat.le_0_l _)). Qed.

Lemma accessor_text_length (s t n f : str) :
  accessor_text s t n f -> (29 <= length s)%nat.
Proof.
  intros (w1 & w2 & w3 & w4 & w5 & w6 & w7 & w8 & -> & _ & H1 & H2 & H6
          & (base & generic & -> & Hb & _) & _ & Hn & _ & Hf).
  apply length_nonempty in H1, H2, H6, Hb, Hn, Hf.
  repeat (rewrite ?length_app, ?length_cons). simpl. lia.
Qed.

Lemma occurrences_length (text : str) (xs : list (str * str * str)) :
  occurrences text xs -> (29 * length xs <= length text)%nat.
Proof.
  induction 1 as [text _ | gap s rest t n f more _ Hs _ IH]; [simpl; lia|].
  apply accessor_text_length in Hs. rewrite !length_app.
  change (length ((t, n, f) :: more)) with (S (length more)). lia.
Qed.

(** X3.  An accessor text takes at least 29 characters and the texts do
    not overlap, so a content of [n] characters yields at most [n / 29]
    triples. *)
Theorem X3_extraction_bound (content : str) :
  (29 * length (findall accessor_pattern content) <= length content)%nat.
Proof.
  apply occurrences_length.
  exact (scan_occurrences content 0 (Nat.le_0_l _)).
Qed.

(** ** The name rule and the synthesizer *)

(** X4.  The alternate name is never the accessor's own name, so a
    synthesized getter does not redeclare the accessor it comes from. *)
Theorem X4_alternate_name_differs (return_type accessor_name alternate : str) :
  getter_name return_type accessor_name = Ok alternate ->
  alternate <> accessor_name.
Proof.
  destruct accessor_name as [|c tl].
  - unfold getter_name. rewrite andb_false_r. discriminate.
  - rewrite getter_name_cons.
    destruct (str_eqb return_type (lit "boolean") && startswith (c :: tl) (lit "is"))
      eqn:E; intros [= <-].
    + apply andb_prop in E as [_ Hs]. apply startswith_spec in Hs as [r Hr].
      injection Hr as -> ->. discriminate.
    + intros Heq. apply (f_equal (@length N)) in Heq.
      simpl in Heq. rewrite length_app in Heq. lia.
Qed.

Lemma getters_loop_raises (accessors : list (str * str * str)) :
  forall getters0 : list str,
    Exists (fun a : str * str * str => snd (fst a) = []) accessors ->
    getters_loop accessors getters0 = Raise IndexError.
Proof.
  induction accessors as [|[[t n] f] more IH]; intros g0 Hex.
  - inversion Hex.
  - simpl. destruct n as [|c tl].
    + unfold getter_name. rewrite andb_false_r. reflexivity.
    + rewrite getter_name_cons. simpl. apply IH.
      inversion Hex as [? ? Hhead | ? ? Htail]; subst; [discriminate | exact Htail].
Qed.

(** X5.  The one way the synthesizer fails: with an empty accessor name
    among the triples, [method_name[0]] raises [IndexError] and no list of
    getters is made; with none, the list is the marker entry and one
    declaration per triple. *)
Theorem X5_synthesizer_index_error (accessors : list (str * str * str)) :
  (Exists (fun a : str * str * str => snd (fst a) = []) accessors ->
   synthesize accessors = Raise IndexError)
  /\ (Forall (fun a : str * str * str => snd (fst a) <> []) accessors ->
      exists decls, synthesize accessors = Ok (marker_entry :: decls)
                    /\ length decls = length accessors).
Proof.
  split.
  - apply getters_loop_raises.
  - intros Hall.
    destruct (getters_loop_spec accessors [marker_entry] Hall) as (decls & Hloop & H2).
    exists decls. split; [exact Hloop|]. symmetry. exact (Forall2_length _ _ _ H2).
Qed.

(** ** The insertion engine and the closing brace *)

Lemma last_brace_idx_at (pre : list str) (l : str) (post : list str) :
  strip l = lit "}" ->
  Forall (fun l' => strip l' <> lit "}") post ->
  last_brace_idx (pre ++ l :: post) = Some (length pre).
Proof.
  intros Hl Hpost.
  destruct (last_brace_idx (pre ++ l :: post)) as [j|] eqn:E.
  - apply last_brace_idx_some in E as (pre' & l' & post' & Heq & <- & Hl' & Hpost').
    f_equal. destruct (Nat.lt_trichotomy (length pre') (length pre)) as [Hlt | [He | Hgt]];
      [|exact He|].
    + exfalso. rewrite List.Forall_forall in Hpost'. apply (Hpost' l); [|exact Hl].
      apply (f_equal (drop (S (length pre')))) in Heq.
      rewrite (drop_app_le pre) in Heq by lia.
      change (pre' ++ l' :: post') with (pre' ++ [l'] ++ post') in Heq.
      rewrite app_assoc in Heq.
      rewrite (drop_app_length' (pre' ++ [l'])) in Heq
        by (rewrite length_app; simpl; lia).
      rewrite <- Heq. apply in_or_app. right. left. reflexivity.
    + exfalso. rewrite List.Forall_forall in Hpost. apply (Hpost l'); [|exact Hl'].
      apply (f_equal (drop (S (length pre)))) in Heq.
      change (pre ++ l :: post) with (pre ++ [l] ++ post) in Heq.
      rewrite app_assoc in Heq.
      rewrite (drop_app_length' (pre ++ [l])) in Heq
        by (rewrite length_app; simpl; lia).
      rewrite (drop_app_le pre') in Heq by lia.
      rewrite Heq. apply in_or_app. right. left. reflexivity.
  - apply last_brace_idx_none in E. rewrite List.Forall_forall in E.
    destruct (E l); [apply in_or_app; right; left; reflexivity | exact Hl].
Qed.

(** X6.  The closing brace keeps its role: in the new content the line
    before which the block was put is still the last closing-brace line,
    moved down by the number of lines of the block, so the engine would
    find the same brace again. *)
Theorem X6_last_brace_stays_last (content : str) (getters : list str)
    (new_content : str) :
  insert_getters content getters = Some new_content ->
  exists i : nat,
    last_brace_idx (split_nl content) = Some i
    /\ last_brace_idx (split_nl new_content)
       = Some (i + length (split_nl (join_nl getters)))%nat
    /\ nth i (split_nl content) []
       = nth (i + length (split_nl (join_nl getters))) (split_nl new_content) [].
Proof.
  intros H. apply insert_getters_some in H as (pre & l & post & Hsplit & Hl & Hpost & ->).
  pose proof (split_nl_lines content) as Hlines. rewrite Hsplit in Hlines.
  apply Forall_app in Hlines as [Hpre Hrest].
  rewrite (split_join_middle pre (l :: post)) by assumption.
  rewrite Hsplit. exists (length pre).
  split; [apply last_brace_idx_at; assumption|].
  rewrite app_assoc, <- length_app.
  split; [apply last_brace_idx_at; assumption|].
  rewrite !(nth_lookup_Some _ _ _ l); [reflexivity | |];
    apply list_lookup_middle; reflexivity.
Qed.

(** ** The outcome of the per-file function *)



(** ** The invariant of the loops *)

Lemma writes_app (a b : list event) : writes (a ++ b) = (writes a + writes b)%nat.
Proof. unfold writes. rewrite List.filter_app, length_app. reflexivity. Qed.

Lemma report_not_done (p line : str) (c : nat * nat) :
  report_of p line -> line <> msg_done c.
Proof.
  intros [-> | [-> | [-> | ->]]] H; vm_compute in H; discriminate H.
Qed.

Lemma carried_refl (m : world) : carried [] 0 m m.
Proof.
  constructor; auto.
  - intros p [].
  - exists []. rewrite app_nil_r. repeat split; auto. intros p [].
Qed.

(** The notice of a missing directory. *)
Lemma carried_print (m : world) (d : str) :
  carried [] 0 m (emit (Print (lit "Directory not found: " ++ d)) m).
Proof.
  constructor; auto.
  - intros p [].
  - exists [Print (lit "Directory not found: " ++ d)].
    split; [reflexivity|]. split; [reflexivity|]. split; [|split].
    + intros c [H | []].
      assert (H' : lit "Directory not found: " ++ d = msg_done c) by congruence.
      vm_compute in H'. discriminate H'.
    + intros p [].
    + constructor; [right; exists d; reflexivity | constructor].
Qed.

Lemma event_about_mono (fs fs' : list str) (ev : event) :
  (forall q, In q fs -> In q fs') -> event_about fs ev -> event_about fs' ev.
Proof.
  intros Hsub. destruct ev as [line | q c]; simpl; [|apply Hsub].
  intros [(q & Hq & Hrep) | Hd]; [left; exists q; auto | right; exact Hd].
Qed.

Lemma carried_quiet_call (p line : str) (m : world) :
  settled m p -> report_of p line -> carried [p] 0 m (emit (Print line) m).
Proof.
  intros Hs Hrep. constructor; auto.
  - intros q [<- | []]. exact Hs.
  - exists [Print line]. repeat split; auto.
    + intros c [[= H] | []]. exact (report_not_done _ _ _ Hrep H).
    + intros q [<- | []]. exists line. split; [exact Hrep | left; reflexivity].
    + constructor; [|constructor]. left. exists p. split; [left; reflexivity | exact Hrep].
Qed.

Lemma carried_update (p raw new_content : str) (m : world) :
  files m !! p = Some (Utf8 raw) -> can_read m p = true ->
  quiet (universal_newlines raw) = false ->
  contains marker new_content = true ->
  carried [p] 1 m (emit (Print (msg_updated p)) (stored p new_content m)).
Proof.
  intros Hraw Hread Hq Hmark.
  assert (Hafter : settled (emit (Print (msg_updated p)) (stored p new_content m)) p).
  { exists (to_linesep (linesep m) new_content). simpl.
    split; [apply lookup_insert_eq|]. split; [exact Hread|].
    unfold quiet. rewrite (marker_round_trip _ _ Hmark). reflexivity. }
  constructor; simpl; auto.
  - apply dom_insert_lookup_L. rewrite Hraw. eauto.
  - intros q Hq'. apply lookup_insert_ne. intros ->. apply Hq'. left. reflexivity.
  - intros q (raw' & Hraw' & Hread' & Hq').
    destruct (decide (q = p)) as [-> | Hne]; [congruence|].
    exists raw'. simpl. rewrite lookup_insert_ne by congruence. auto.
  - intros q (raw' & Hraw' & Hread' & Hcan).
    destruct (decide (q = p)) as [-> | Hne].
    + destruct Hafter as (r & Hr & Hrd & Hqr). exists r. auto.
    + exists raw'. simpl. rewrite lookup_insert_ne by congruence. auto.
  - intros q [<- | []]. exact Hafter.
  - intros Hall. destruct (Hall p) as (raw' & Hraw' & _ & Hq'); [left; reflexivity|].
    congruence.
  - exists [Write p new_content; Print (msg_updated p)].
    rewrite <- app_assoc. repeat split; auto.
    + intros c [Hw | [Hp | []]]; [discriminate Hw|].
      assert (H : msg_updated p = msg_done c) by congruence.
      refine (report_not_done p _ c _ H). unfold report_of. auto.
    + intros q [<- | []]. exists (msg_updated p).
      unfold report_of. split; [auto | right; left; reflexivity].
    + constructor; [left; reflexivity|]. constructor; [|constructor].
      left. exists p. unfold report_of. split; [left; reflexivity | auto].
Qed.

Lemma carried_trans (fs1 fs2 : list str) (u1 u2 : nat) (m m1 m2 : world) :
  carried fs1 u1 m m1 -> carried fs2 u2 m1 m2 ->
  carried (fs1 ++ fs2) (u1 + u2) m m2.
Proof.
  intros H1 H2. constructor.
  - rewrite (same_dirs _ _ _ _ H2). apply (same_dirs _ _ _ _ H1).
  - rewrite (same_can_read _ _ _ _ H2). apply (same_can_read _ _ _ _ H1).
  - rewrite (same_can_write _ _ _ _ H2). apply (same_can_write _ _ _ _ H1).
  - rewrite (same_linesep _ _ _ _ H2). apply (same_linesep _ _ _ _ H1).
  - rewrite (same_dom _ _ _ _ H2). apply (same_dom _ _ _ _ H1).
  - intros q Hq. rewrite (others_kept _ _ _ _ H2), (others_kept _ _ _ _ H1);
      [reflexivity | |]; intros Hin; apply Hq; apply in_or_app; auto.
  - intros q Hq. apply (settled_kept _ _ _ _ H2), (settled_kept _ _ _ _ H1), Hq.
  - intros q Hq. apply (callable_kept _ _ _ _ H2), (callable_kept _ _ _ _ H1), Hq.
  - intros p Hp. apply in_app_or in Hp as [Hp | Hp].
    + apply (settled_kept _ _ _ _ H2), (visited_settled _ _ _ _ H1), Hp.
    + apply (visited_settled _ _ _ _ H2), Hp.
  - intros Hall.
    destruct (nothing_to_do _ _ _ _ H1) as [-> Hd1];
      [intros p Hp; apply Hall, in_or_app; auto|].
    destruct (nothing_to_do _ _ _ _ H2) as [-> Hd2];
      [intros p Hp; apply (settled_kept _ _ _ _ H1), Hall, in_or_app; auto|].
    split; [reflexivity | congruence].
  - destruct (events_added _ _ _ _ H1) as (ev1 & Ho1 & Hw1 & Hn1 & Hr1 & Ha1).
    destruct (events_added _ _ _ _ H2) as (ev2 & Ho2 & Hw2 & Hn2 & Hr2 & Ha2).
    exists (ev1 ++ ev2). rewrite Ho2, Ho1, <- app_assoc, writes_app, Hw1, Hw2.
    repeat split; auto.
    + intros c Hin. apply in_app_or in Hin as [Hin | Hin];
        [exact (Hn1 c Hin) | exact (Hn2 c Hin)].
    + intros p Hp. apply in_app_or in Hp as [Hp | Hp].
      * destruct (Hr1 p Hp) as (line & Hrep & Hin). exists line.
        split; [exact Hrep | apply in_or_app; auto].
      * destruct (Hr2 p Hp) as (line & Hrep & Hin). exists line.
        split; [exact Hrep | apply in_or_app; auto].
    + apply List.Forall_app. split.
      * eapply List.Forall_impl; [|exact Ha1].
        intros ev. apply event_about_mono. intros q Hq. apply in_or_app. auto.
      * eapply List.Forall_impl; [|exact Ha2].
        intros ev. apply event_about_mono. intros q Hq. apply in_or_app. auto.
Qed.

(** One call that returns. *)
Lemma call_ok (p : str) (m m1 : world) (b : bool) :
  add_java_bean_getters p m = (Ok b, m1) ->
  callable m p /\ carried [p] (if b then 1 else 0) m m1.
Proof.
  intros Hrun. pose proof (call_ok_callable _ _ _ _ Hrun) as Hc.
  split; [exact Hc|].
  destruct (run_callable p m Hc)
    as [[Hs (line & Hrep & Hr)] | [Hs (raw & new & Hraw & Hread & Hmark & Hr)]];
    rewrite Hr in Hrun; injection Hrun as <- <-.
  - apply carried_quiet_call; assumption.
  - apply (carried_update p raw new m Hraw Hread); [|exact Hmark].
    destruct (quiet (universal_newlines raw)) eqn:Hq; [|reflexivity].
    destruct Hs. exists raw. auto.
Qed.

Lemma callable_not_raises (p : str) (m : world) (e : exn) :
  callable m p -> raises m p e -> False.
Proof.
  intros Hc He. pose proof (run_raises _ _ _ He) as Hr.
  destruct (run_callable p m Hc) as [[_ (line & _ & Hr')] | [_ (raw & new & _ & _ & _ & Hr')]];
    rewrite Hr' in Hr; discriminate.
Qed.

(** What a call does depends on the state through the file and the
    permissions only. *)
Lemma raises_same (p : str) (m m1 : world) (e : exn) :
  files m1 !! p = files m !! p -> can_read m1 = can_read m ->
  can_write m1 = can_write m ->
  raises m1 p e -> raises m p e.
Proof. unfold raises. intros -> -> ->. auto. Qed.

Lemma callable_same (p : str) (m m1 : world) :
  files m1 !! p = files m !! p -> can_read m1 = can_read m ->
  can_write m1 = can_write m ->
  callable m1 p -> callable m p.
Proof. unfold callable. intros -> -> ->. auto. Qed.

Lemma carried_raises_back (fs : list str) (u : nat) (m m1 : world) (p : str) (e : exn) :
  carried fs u m m1 -> raises m1 p e -> raises m p e.
Proof.
  intros Hc He. destruct (List.in_dec (fun x y : list N => decide (x = y)) p fs) as [Hin | Hout].
  - destruct (callable_not_raises p m1 e); [|exact He].
    destruct (visited_settled _ _ _ _ Hc p Hin) as (raw & Hraw & Hread & Hq).
    exists raw. auto.
  - apply (raises_same p m m1); [| | |exact He].
    + apply (others_kept _ _ _ _ Hc). exact Hout.
    + apply (same_can_read _ _ _ _ Hc).
    + apply (same_can_write _ _ _ _ Hc).
Qed.

(** The inner loop: it visits the files up to the first one on which the
    call raises, or all of them. *)
Lemma for_files_run (java_files : list str) :
  forall (m : world) (cu ct : nat),
  exists (done : list str) (u : nat) (m1 : world),
    (forall q, In q done -> callable m q)
    /\ carried done u m m1 /\ (u <= length done)%nat
    /\ ((java_files = done
         /\ for_files java_files (cu, ct) m
            = (Ok ((cu + u)%nat, (ct + length java_files)%nat), m1))
        \/ (exists p rest e,
              java_files = done ++ p :: rest /\ raises m p e
              /\ for_files java_files (cu, ct) m = (Raise e, m1))).
Proof.
  induction java_files as [|p more IH]; intros m cu ct.
  - exists [], 0%nat, m. split; [intros q []|]. split; [apply carried_refl|].
    split; [simpl; lia|]. left. simpl. unfold ret. rewrite !Nat.add_0_r. auto.
  - destruct (add_java_bean_getters p m) as [[b|e] m'] eqn:Hrun.
    + destruct (call_ok _ _ _ _ Hrun) as [Hp Hc].
      destruct (IH m' (if b then S cu else cu) (S ct))
        as (done & u & m1 & Hdone & Hc' & Hu & Halt).
      exists (p :: done), ((if b then 1 else 0) + u)%nat, m1.
      split.
      { intros q [<- | Hq]; [exact Hp|].
        destruct (decide (q = p)) as [-> | Hne]; [exact Hp|].
        apply (callable_same q m m'); [| | |exact (Hdone q Hq)].
        - apply (others_kept _ _ _ _ Hc). intros [-> | []]. congruence.
        - apply (same_can_read _ _ _ _ Hc).
        - apply (same_can_write _ _ _ _ Hc). }
      split; [exact (carried_trans [p] done _ _ _ _ _ Hc Hc')|].
      split; [destruct b; simpl; lia|].
      assert (Hunfold : for_files (p :: more) (cu, ct) m
                        = for_files more (if b then S cu else cu, S ct) m').
      { simpl. unfold bind at 1. rewrite Hrun. reflexivity. }
      rewrite Hunfold.
      destruct Halt as [[-> Hok] | (p' & rest & e & -> & Hraise & He)].
      * left. split; [reflexivity|]. rewrite Hok. f_equal. f_equal.
        f_equal; destruct b; simpl; lia.
      * right. exists p', rest, e. split; [reflexivity|]. split; [|exact He].
        exact (carried_raises_back _ _ _ _ _ _ Hc Hraise).
    + destruct (call_raise _ _ _ _ Hrun) as (-> & He & _).
      exists [], 0%nat, m. split; [intros q []|]. split; [apply carried_refl|].
      split; [simpl; lia|]. right. exists p, more, e. split; [reflexivity|].
      split; [exact He|]. simpl. unfold bind at 1. rewrite Hrun. reflexivity.
Qed.

Lemma listed_same_dirs (ds : list str) (m m1 : world) :
  dirs m1 = dirs m -> listed ds m1 = listed ds m.
Proof. intros H. unfold listed. rewrite H. reflexivity. Qed.

Lemma callable_back (fs : list str) (u : nat) (m m1 : world) (q : str) :
  carried fs u m m1 -> (forall p, In p fs -> callable m p) ->
  callable m1 q -> callable m q.
Proof.
  intros Hc Hfs Hq. destruct (List.in_dec (fun x y : list N => decide (x = y)) q fs) as [Hin | Hout]; [auto|].
  apply (callable_same q m m1); [| | |exact Hq].
  - apply (others_kept _ _ _ _ Hc). exact Hout.
  - apply (same_can_read _ _ _ _ Hc).
  - apply (same_can_write _ _ _ _ Hc).
Qed.

(** The outer loop, likewise, over the files of the directories that
    exist. *)
Lemma for_dirs_run (ds : list str) :
  forall (m : world) (cu ct : nat),
  exists (done : list str) (u : nat) (m1 : world),
    (forall q, In q done -> callable m q)
    /\ carried done u m m1 /\ (u <= length done)%nat
    /\ ((listed ds m = done
         /\ for_dirs ds (cu, ct) m
            = (Ok ((cu + u)%nat, (ct + length (listed ds m))%nat), m1))
        \/ (exists p rest e,
              listed ds m = done ++ p :: rest /\ raises m p e
              /\ for_dirs ds (cu, ct) m = (Raise e, m1))).
Proof.
  induction ds as [|d more IH]; intros m cu ct.
  - exists [], 0%nat, m. split; [intros q []|]. split; [apply carried_refl|].
    split; [simpl; lia|]. left. simpl. unfold ret. rewrite !Nat.add_0_r. auto.
  - destruct (dirs m !! d) as [fs|] eqn:Hdir.
    + assert (Hunfold : for_dirs (d :: more) (cu, ct) m
                = match for_files fs (cu, ct) m with
                  | (Ok counts', m') => for_dirs more counts' m'
                  | (Raise e, m') => (Raise e, m')
                  end).
      { simpl. unfold bind at 1, list_dir. rewrite Hdir. reflexivity. }
      assert (Hlisted : listed (d :: more) m = fs ++ listed more m).
      { unfold listed. simpl. rewrite Hdir. reflexivity. }
      rewrite Hunfold, Hlisted.
      destruct (for_files_run fs m cu ct)
        as (done1 & u1 & m' & Hdone1 & Hc1 & Hu1
            & [[-> Hok] | (p & rest & e & -> & Hraise & He)]).
      * rewrite Hok.
        destruct (IH m' (cu + u1)%nat (ct + length done1)%nat)
          as (done2 & u2 & m1 & Hdone2 & Hc2 & Hu2 & Halt).
        rewrite (listed_same_dirs more m m' (same_dirs _ _ _ _ Hc1)) in Halt.
        exists (done1 ++ done2), (u1 + u2)%nat, m1.
        split; [intros q Hq; apply in_app_or in Hq as [Hq | Hq]; auto;
                exact (callable_back _ _ _ _ _ Hc1 Hdone1 (Hdone2 q Hq))|].
        split; [exact (carried_trans _ _ _ _ _ _ _ Hc1 Hc2)|].
        split; [rewrite length_app; lia|].
        destruct Halt as [[Heq Hok2] | (p & rest & e & Heq & Hraise & He)].
        -- left. split; [congruence|]. rewrite Hok2, length_app.
           f_equal. f_equal. f_equal; lia.
        -- right. exists p, rest, e. rewrite Heq, <- app_assoc.
           split; [reflexivity|]. split; [|exact He].
           exact (carried_raises_back _ _ _ _ _ _ Hc1 Hraise).
      * rewrite He. exists done1, u1, m'.
        split; [exact Hdone1|]. split; [exact Hc1|]. split; [exact Hu1|].
        right. exists p, (rest ++ listed more m), e. rewrite <- app_assoc.
        split; [reflexivity|]. split; [exact Hraise | reflexivity].
    + assert (Hunfold : for_dirs (d :: more) (cu, ct) m
                = for_dirs more (cu, ct)
                    (emit (Print (lit "Directory not found: " ++ d)) m)).
      { simpl. unfold bind at 1, list_dir. rewrite Hdir. reflexivity. }
      assert (Hlisted : listed (d :: more) m = listed more m).
      { unfold listed. simpl. rewrite Hdir. reflexivity. }
      rewrite Hunfold, Hlisted.
      assert (Hsay : carried [] 0 m (emit (Print (lit "Directory not found: " ++ d)) m)).
      { apply carried_print. }
      destruct (IH (emit (Print (lit "Directory not found: " ++ d)) m) cu ct)
        as (done & u & m1 & Hdone & Hc & Hu & Halt).
      rewrite (listed_same_dirs more m
                 (emit (Print (lit "Directory not found: " ++ d)) m) eq_refl) in Halt.
      exists done, u, m1. split; [exact Hdone|].
      split; [exact (carried_trans [] done 0 u _ _ _ Hsay Hc)|].
      split; [exact Hu|].
      destruct Halt as [Hleft | (p & rest & e & Heq & Hraise & He)]; [left; exact Hleft|].
      right. exists p, rest, e. split; [exact Heq|]. split; [|exact He].
      exact (carried_raises_back _ _ _ _ _ _ Hsay Hraise).
Qed.

Lemma main_of_for_dirs (m m1 : world) (counts : nat * nat) :
  for_dirs event_dirs (0%nat, 0%nat) m = (Ok counts, m1) ->
  main m = (Ok tt, emit (Print (msg_done counts)) m1).
Proof. intros H. unfold main, bind. rewrite H. reflexivity. Qed.

Lemma for_dirs_all_callable (m : world) :
  (forall p, In p (listed event_dirs m) -> callable m p) ->
  exists (u : nat) (m1 : world),
    for_dirs event_dirs (0%nat, 0%nat) m
      = (Ok (u, length (listed event_dirs m)), m1)
    /\ (u <= length (listed event_dirs m))%nat
    /\ carried (listed event_dirs m) u m m1.
Proof.
  intros Hall.
  destruct (for_dirs_run event_dirs m 0 0)
    as (done & u & m1 & _ & Hc & Hu & [[Heq Hok] | (p & rest & e & Heq & Hraise & _)]).
  - exists u, m1. rewrite Heq. rewrite Heq in Hok. auto.
  - destruct (callable_not_raises p m e); [|exact Hraise].
    apply Hall. rewrite Heq. apply in_or_app. right. left. reflexivity.
Qed.



(** ** The driver *)

(** X9.  A run in which no call raises ends normally with the summary
    line: the total is the number of files listed in the directories that
    exist, the updated count is the number of write-backs of the run and
    is at most the total.  Before the summary the run has printed a
    report for each listed file; all it has printed or written is about
    listed files or missing directories.  No file appears or goes and the
    files not listed are as they were. *)
Theorem X9_run_summary (m : world) :
  (forall p, In p (listed event_dirs m) -> callable m p) ->
  exists (u : nat) (m1 : world) (events : list event),
    main m
      = (Ok tt, emit (Print (msg_done (u, length (listed event_dirs m)))) m1)
    /\ (u <= length (listed event_dirs m))%nat
    /\ trace m1 = trace m ++ events /\ writes events = u
    /\ dom (files m1) = dom (files m)
    /\ (forall q, ~ In q (listed event_dirs m) -> files m1 !! q = files m !! q)
    /\ (forall q, In q (listed event_dirs m) ->
          exists line, report_of q line /\ In (Print line) events)
    /\ Forall (event_about (listed event_dirs m)) events.
Proof.
  intros Hall.
  destruct (for_dirs_all_callable m Hall) as (u & m1 & Hrun & Hu & Hc).
  destruct (events_added _ _ _ _ Hc) as (events & Hout & Hw & _ & Hrep & Habout).
  exists u, m1, events. rewrite (main_of_for_dirs _ _ _ Hrun).
  split; [reflexivity|]. split; [exact Hu|]. split; [exact Hout|].
  split; [exact Hw|]. split; [apply (same_dom _ _ _ _ Hc)|].
  split; [apply (others_kept _ _ _ _ Hc)|]. auto.
Qed.

(** X10.  Idempotence of the whole run: after a run in which no call
    raises, a second run raises neither, writes nothing, leaves every
    file as the first run left it and reports zero updated files out of
    the same total. *)
Theorem X10_second_run_updates_nothing (m : world) :
  (forall p, In p (listed event_dirs m) -> callable m p) ->
  exists (m1 m2 : world) (events : list event),
    main m = (Ok tt, m1)
    /\ main m1
       = (Ok tt, emit (Print (msg_done (0%nat, length (listed event_dirs m)))) m2)
    /\ files m2 = files m1
    /\ trace m2 = trace m1 ++ events /\ writes events = 0%nat.
Proof.
  intros Hall.
  destruct (for_dirs_all_callable m Hall) as (u & m' & Hrun & _ & Hc).
  pose proof (main_of_for_dirs _ _ _ Hrun) as Hmain.
  set (m1 := emit (Print (msg_done (u, length (listed event_dirs m)))) m') in *.
  assert (Hlisted : listed event_dirs m1 = listed event_dirs m)
    by (apply listed_same_dirs; apply (same_dirs _ _ _ _ Hc)).
  assert (Hsettled : forall p, In p (listed event_dirs m1) -> settled m1 p).
  { intros p Hp. rewrite Hlisted in Hp. exact (visited_settled _ _ _ _ Hc p Hp). }
  destruct (for_dirs_all_callable m1) as (u2 & m2 & Hrun2 & _ & Hc2).
  { intros p Hp. destruct (Hsettled p Hp) as (raw & Hraw & Hread & Hq).
    exists raw. auto. }
  destruct (nothing_to_do _ _ _ _ Hc2 Hsettled) as [-> Hfiles].
  destruct (events_added _ _ _ _ Hc2) as (events & Hout & Hw & _).
  exists m1, m2, events. split; [exact Hmain|].
  rewrite (main_of_for_dirs _ _ _ Hrun2), Hlisted. auto.
Qed.

(** X11.  The first listed file on which the call raises ends the run with
    that exception.  The files listed before it have been visited: each
    has its report line in the trace and is left settled; all that the
    run has printed or written is about those files or missing
    directories, so it holds no summary; and the files not visited are
    as they were. *)
Theorem X11_first_failure_aborts (m : world) :
  Exists (fun p => ~ callable m p) (listed event_dirs m) ->
  exists (done : list str) (p : str) (rest : list str) (e : exn)
         (m1 : world) (events : list event),
    listed event_dirs m = done ++ p :: rest
    /\ (forall q, In q done -> callable m q)
    /\ raises m p e
    /\ main m = (Raise e, m1)
    /\ (forall q, In q done -> settled m1 q)
    /\ (forall q, ~ In q done -> files m1 !! q = files m !! q)
    /\ trace m1 = trace m ++ events
    /\ (forall q, In q done ->
          exists line, report_of q line /\ In (Print line) events)
    /\ Forall (event_about done) events
    /\ (forall c, ~ In (Print (msg_done c)) events).
Proof.
  intros Hex.
  destruct (for_dirs_run event_dirs m 0 0)
    as (done & u & m1 & Hdone & Hc & _
        & [[Heq _] | (p & rest & e & Heq & Hraise & Hrun)]).
  - apply List.Exists_exists in Hex as (p & Hp & Hno). rewrite Heq in Hp.
    destruct (Hno (Hdone p Hp)).
  - destruct (events_added _ _ _ _ Hc) as (events & Hout & _ & Hnone & Hrep & Habout).
    exists done, p, rest, e, m1, events.
    split; [exact Heq|]. split; [exact Hdone|]. split; [exact Hraise|].
    split; [unfold main, bind; rewrite Hrun; reflexivity|].
    split; [apply (visited_settled _ _ _ _ Hc)|].
    split; [apply (others_kept _ _ _ _ Hc)|]. auto 6.
Qed.

Lemma for_dirs_none_exist (ds : list str) :
  forall (w : world) (counts : nat * nat),
    (forall d, In d ds -> dirs w !! d = None) ->
    for_dirs ds counts w
    = (Ok counts,
       World (files w) (can_read w) (can_write w) (linesep w) (dirs w)
             (trace w ++ List.map (fun d => Print (lit "Directory not found: " ++ d)) ds)).
Proof.
  induction ds as [|d more IH]; intros w counts Hnone.
  - simpl. unfold ret. rewrite app_nil_r. destruct w; reflexivity.
  - simpl. unfold bind at 1, list_dir. rewrite (Hnone d) by (left; reflexivity).
    unfold bind at 1, print. rewrite IH by (intros d' Hd'; apply Hnone; right; exact Hd').
    simpl. rewrite <- app_assoc. reflexivity.
Qed.

(** X13.  Where none of the three directories exists the run reports each
    of them as not found, in order, then that it updated 0 out of 0
    files, and touches no file. *)
Theorem X13_no_directory (w : world) :
  (forall d, In d event_dirs -> dirs w !! d = None) ->
  main w
  = (Ok tt,
     World (files w) (can_read w) (can_write w) (linesep w) (dirs w)
           (trace w
            ++ List.map (fun d => Print (lit "Directory not found: " ++ d)) event_dirs
            ++ [Print (msg_done (0%nat, 0%nat))])).
Proof.
  intros Hnone. unfold main, bind. rewrite (for_dirs_none_exist _ _ _ Hnone).
  unfold print, emit. simpl. rewrite <- app_assoc. reflexivity.
Qed.

Lemma Forall2_In_left {A B} (P : A -> B -> Prop) (l : list A) (k : list B) (x : A) :
  Forall2 P l k -> In x l -> exists y, In y k /\ P x y.
Proof.
  induction 1 as [|a b l k Hab _ IH]; intros Hin; [destruct Hin|].
  destruct Hin as [<- | Hin].
  - exists b. split; [left; reflexivity | exact Hab].
  - destruct (IH Hin) as (y & Hy & Hxy). exists y. split; [right; exact Hy | exact Hxy].
Qed.

Lemma join_nl_contains (ls : list str) (d : str) :
  In d ls -> exists a b, join_nl ls = a ++ d ++ b.
Proof.
  intros Hin. apply in_split in Hin as (l1 & l2 & ->).
  rewrite join_nl_app by discriminate. rewrite join_nl_head. eauto.
Qed.

(** X12.  What is written holds a getter for every accessor found: when
    the function returns [True] it has written one text, the file holds
    that text with each newline as the line separator, and for each
    extracted triple the text of its declaration, with the name that the
    rule gives, is part of the text written, and so, with its newlines
    as the line separator, part of the file. *)
Theorem X12_every_accessor_gets_a_getter (file_path content : str) (w w1 : world) :
  text_of w file_path = Some content ->
  add_java_bean_getters file_path w = (Ok true, w1) ->
  exists new_content,
    In (Write file_path new_content) (trace w1)
    /\ files w1 !! file_path = Some (Utf8 (to_linesep (linesep w) new_content))
    /\ forall t n f,
         In (t, n, f) (findall accessor_pattern content) ->
         exists g, getter_name t n = Ok g
                   /\ contains (getter_decl t g f) new_content = true
                   /\ contains (to_linesep (linesep w) (getter_decl t g f))
                               (to_linesep (linesep w) new_content) = true.
Proof.
  intros Hfile. rewrite (add_java_bean_getters_on_text _ _ _ Hfile).
  destruct (contains marker content); [discriminate|].
  destruct (synthesize_extracted content) as (decls & Hsyn & Hall).
  destruct (findall accessor_pattern content) as [|a more] eqn:Ef; [discriminate|].
  rewrite Hsyn.
  destruct (insert_getters content (marker_entry :: decls)) as [new_content|] eqn:Ei;
    [|discriminate].
  destruct (can_write w file_path); [|discriminate].
  intros [= <-]. exists new_content.
  split; [simpl; apply in_or_app; left; apply in_or_app; right; left; reflexivity|].
  split; [apply lookup_insert_eq|].
  intros t n f Hin.
  apply insert_getters_some in Ei as (pre & l & post & _ & _ & _ & ->).
  apply (Forall2_In_left _ _ _ _ Hall) in Hin as (d & Hd & g & Hg & ->).
  exists g. split; [exact Hg|].
  destruct (join_nl_contains (marker_entry :: decls) (getter_decl t g f))
    as (a' & b' & Hblock); [right; exact Hd|].
  destruct (join_nl_contains (pre ++ join_nl (marker_entry :: decls) :: l :: post)
              (join_nl (marker_entry :: decls))) as (a'' & b'' & ->);
    [apply in_or_app; right; left; reflexivity|].
  rewrite Hblock.
  split; apply contains_spec.
  - exists (a'' ++ a'), (b' ++ b''). rewrite <- !app_assoc. reflexivity.
  - exists (to_linesep (linesep w) (a'' ++ a')), (to_linesep (linesep w) (b' ++ b'')).
    rewrite <- !to_linesep_app, <- !app_assoc. reflexivity.
Qed.

End Getters.

(** * The scenarios, run

    On ASCII text the Unicode database is not consulted; the scenarios run
    with [ascii_db]. *)

(** C1 as stated fails.  The four lines of the scenario, with or without a
    final newline, hold no accessor that the pattern matches: the function
    prints the skip, returns [False] and writes nothing, and the file,
    which holds no marker comment, stays as it was. *)
Lemma C1_one_line_accessors_not_extracted :
  findall (accessor_pattern ascii_db) one_line_class = []
  /\ add_java_bean_getters ascii_db E_java (only_file one_line_class)
     = (Ok false, emit (Print (msg_skip_none E_java)) (only_file one_line_class))
  /\ files (snd (add_java_bean_getters ascii_db E_java (only_file one_line_class)))
       !! E_java = Some (Utf8 one_line_class)
  /\ contains marker one_line_class = false
  /\ add_java_bean_getters ascii_db E_java (only_file (one_line_class ++ [NL]))
     = (Ok false,
        emit (Print (msg_skip_none E_java)) (only_file (one_line_class ++ [NL]))).
Proof. vm_compute. repeat split. Qed.

Lemma C2_idempotent_witness :
  exists (updated : bool) (w1 : world) (line : str),
    add_java_bean_getters ascii_db E_java (only_file three_line_class)
      = (Ok updated, w1)
    /\ add_java_bean_getters ascii_db E_java w1 = (Ok false, emit (Print line) w1)
    /\ (updated = true ->
        line = msg_skip_marker E_java
        /\ exists new_content,
             text_of w1 E_java = Some new_content
             /\ contains marker new_content = true).
Proof.
  apply (C2_idempotent ascii_db E_java three_line_class (only_file three_line_class)).
  - vm_compute. reflexivity.
  - right. vm_compute. reflexivity.
Defined.

Lemma C3_naming_rule_witness :
  getter_name ascii_db (lit "boolean") (lit "isActive") = Ok (lit "IsActive")
  /\ getter_name ascii_db (lit "String") (lit "name") = Ok (lit "getName").
Proof.
  split.
  - destruct (C3_naming_rule ascii_db (lit "boolean") (lit "isActive"))
      as (c & rest & Heq & Hbool & _); [discriminate|].
    injection Heq as <- <-.
    destruct Hbool as [Hname _]; [|exact Hname].
    split; [reflexivity|]. exists (lit "Active"). reflexivity.
  - destruct (C3_naming_rule ascii_db (lit "String") (lit "name"))
      as (c & rest & Heq & _ & Hget); [discriminate|].
    injection Heq as <- <-.
    apply Hget. intros [Ht _]. vm_compute in Ht. discriminate Ht.
Defined.

Lemma C4_insert_before_last_brace_witness :
  exists (pre : list str) (l : str) (post : list str) (new_content : str),
    split_nl three_line_class = pre ++ l :: post
    /\ strip ascii_db l = lit "}"
    /\ Forall (fun l' => strip ascii_db l' <> lit "}") post
    /\ insert_getters ascii_db three_line_class scenario_block = Some new_content
    /\ new_content = join_nl (pre ++ join_nl scenario_block :: l :: post)
    /\ split_nl new_content = pre ++ split_nl (join_nl scenario_block) ++ l :: post.
Proof.
  apply (C4_insert_before_last_brace ascii_db three_line_class scenario_block).
  apply List.Exists_exists. exists (lit "}"). split.
  - vm_compute. do 7 right. left. reflexivity.
  - vm_compute. reflexivity.
Defined.

(** C5 as stated fails.  A class with [\r\n] line ends, where the line
    separator is [\n], and the same class with [\n] line ends, where the
    line separator is [\r\n]: the call returns [True] and the file
    written is the class of the scenario with its getters and every line
    end the line separator.  No way of taking a block out of the new file
    gives back the old one. *)
Lemma C5_crlf_line_ends_rewritten :
  (exists w1 : world,
     files crlf_world !! E_java = Some (Utf8 (to_linesep [CR; NL] three_line_class))
     /\ add_java_bean_getters ascii_db E_java crlf_world = (Ok true, w1)
     /\ files w1 !! E_java = Some (Utf8 three_line_class_out)
     /\ ~ exists pre block post : str,
            to_linesep [CR; NL] three_line_class = pre ++ post
            /\ three_line_class_out = pre ++ block ++ post)
  /\ (exists w1 : world,
        files lf_world !! E_java = Some (Utf8 three_line_class)
        /\ add_java_bean_getters ascii_db E_java lf_world = (Ok true, w1)
        /\ files w1 !! E_java
           = Some (Utf8 (to_linesep [CR; NL] three_line_class_out))
        /\ ~ exists pre block post : str,
               three_line_class = pre ++ post
               /\ to_linesep [CR; NL] three_line_class_out = pre ++ block ++ post).
Proof.
  split.
  - exists (snd (add_java_bean_getters ascii_db E_java crlf_world)).
    split; [vm_compute; reflexivity|]. split; [vm_compute; reflexivity|].
    split; [vm_compute; reflexivity|].
    intros (pre & block & post & Hold & Hnew).
    assert (Hcr : In CR (pre ++ post)).
    { rewrite <- Hold.
      assert (H : existsb (N.eqb CR) (to_linesep [CR; NL] three_line_class) = true)
        by (vm_compute; reflexivity).
      apply List.existsb_exists in H as (c & Hin & Hc).
      apply N.eqb_eq in Hc. subst c. exact Hin. }
    assert (Hno : forallb (fun c => negb (c =? CR)) three_line_class_out = true)
      by (vm_compute; reflexivity).
    rewrite List.forallb_forall in Hno.
    assert (Hin : In CR three_line_class_out).
    { rewrite Hnew. apply in_app_or in Hcr as [H | H]; apply in_or_app.
      - left. exact H.
      - right. apply in_or_app. right. exact H. }
    specialize (Hno CR Hin). discriminate Hno.
  - exists (snd (add_java_bean_getters ascii_db E_java lf_world)).
    split; [vm_compute; reflexivity|]. split; [vm_compute; reflexivity|].
    split; [vm_compute; reflexivity|].
    intros (pre & block & post & Hold & Hnew).
    assert (Hlen : length (pre ++ post) = length three_line_class)
      by (rewrite Hold; reflexivity).
    rewrite length_app in Hlen.
    assert (Hsize : (20 <= length three_line_class)%nat)
      by (vm_compute; repeat constructor).
    destruct (le_lt_dec 17 (length pre)) as [Hpre | Hpre].
    + (* the first line end lies in [pre] *)
      assert (H1 : nth 16 three_line_class 0 = nth 16 pre 0)
        by (rewrite Hold; apply app_nth1; lia).
      assert (H2 : nth 16 (to_linesep [CR; NL] three_line_class_out) 0 = nth 16 pre 0)
        by (rewrite Hnew; apply app_nth1; lia).
      rewrite <- H2 in H1. vm_compute in H1. discriminate H1.
    + (* the last line end lies in [post] *)
      assert (Hpost : (3 <= length (rev post))%nat) by (rewrite length_rev; lia).
      assert (H1 : nth 2 (rev three_line_class) 0 = nth 2 (rev post) 0)
        by (rewrite Hold, rev_app_distr; apply app_nth1; lia).
      assert (H2 : nth 2 (rev (to_linesep [CR; NL] three_line_class_out)) 0
                   = nth 2 (rev post) 0).
      { rewrite Hnew, !rev_app_distr, <- app_assoc. apply app_nth1. lia. }
      rewrite <- H2 in H1. vm_compute in H1. discriminate H1.
Qed.

Lemma C5_text_preserved_witness :
  exists (getters : list str) (pre post : str),
    synthesize ascii_db
      (findall (accessor_pattern ascii_db) (universal_newlines three_line_class))
    = Ok getters
    /\ universal_newlines three_line_class = pre ++ post
    /\ trace (snd (add_java_bean_getters ascii_db A_java two_files_world))
       = trace two_files_world
         ++ [Write A_java (pre ++ (join_nl getters ++ [NL]) ++ post);
             Print (msg_updated A_java)]
    /\ files (snd (add_java_bean_getters ascii_db A_java two_files_world))
       = <[A_java := Utf8 (to_linesep (linesep two_files_world) pre
                           ++ to_linesep (linesep two_files_world)
                                (join_nl getters ++ [NL])
                           ++ to_linesep (linesep two_files_world) post)]>
           (files two_files_world)
    /\ to_linesep (linesep two_files_world) pre
       ++ to_linesep (linesep two_files_world) post
       = to_linesep (linesep two_files_world) (universal_newlines three_line_class)
    /\ (to_linesep (linesep two_files_world) (universal_newlines three_line_class)
        = three_line_class ->
        three_line_class
        = to_linesep (linesep two_files_world) pre
          ++ to_linesep (linesep two_files_world) post).
Proof.
  apply (C5_text_preserved ascii_db A_java three_line_class two_files_world
           (snd (add_java_bean_getters ascii_db A_java two_files_world))).
  - vm_compute. reflexivity.
  - vm_compute. reflexivity.
Defined.

Lemma C6_no_accessors_no_write_witness :
  add_java_bean_getters ascii_db E_java (only_file one_line_class) =
  (Ok false,
   emit (Print (if contains marker one_line_class then msg_skip_marker E_java
                else msg_skip_none E_java)) (only_file one_line_class)).
Proof.
  apply (C6_no_accessors_no_write ascii_db E_java one_line_class
           (only_file one_line_class)).
  - vm_compute. reflexivity.
  - vm_compute. reflexivity.
Defined.

(** C7 as stated fails.  A document with no closing-brace line and no
    accessor: the function reports that no accessor was found, not that
    the closing brace is missing. *)
Lemma C7_no_brace_reported_as_no_accessors :
  Forall (fun l => strip ascii_db l <> lit "}") (split_nl (lit "public class E {"))
  /\ add_java_bean_getters ascii_db E_java (only_file (lit "public class E {"))
     = (Ok false,
        emit (Print (msg_skip_none E_java)) (only_file (lit "public class E {")))
  /\ msg_skip_none E_java <> msg_no_brace E_java.
Proof.
  split; [|split].
  - apply last_brace_idx_none. vm_compute. reflexivity.
  - vm_compute. reflexivity.
  - intros H. vm_compute in H. discriminate H.
Qed.

Lemma C7_no_closing_brace_witness :
  add_java_bean_getters ascii_db E_java (only_file no_brace_line_class) =
    (Ok false, emit (Print (msg_no_brace E_java)) (only_file no_brace_line_class))
  /\ forall (more : list str) (counts : nat * nat),
       for_files ascii_db (E_java :: more) counts (only_file no_brace_line_class) =
       for_files ascii_db more (fst counts, S (snd counts))
                 (emit (Print (msg_no_brace E_java)) (only_file no_brace_line_class)).
Proof.
  apply (C7_no_closing_brace ascii_db E_java no_brace_line_class
           (only_file no_brace_line_class)).
  - vm_compute. reflexivity.
  - vm_compute. reflexivity.
  - vm_compute. discriminate.
  - apply last_brace_idx_none. vm_compute. reflexivity.
Defined.

(** C8 as stated fails.  One accessor whose return type is on two
    lines: one triple, one declaration, and a block of four lines, of
    which the last two are the declaration. *)
Lemma C8_declaration_on_two_lines :
  findall (accessor_pattern ascii_db) two_line_type_class
    = [(two_line_type, lit "counts", lit "counts")]
  /\ synthesize ascii_db [(two_line_type, lit "counts", lit "counts")]
     = Ok [marker_entry;
           lit "    public " ++ two_line_type ++ lit " getCounts() { return counts; }"]
  /\ split_nl (join_nl
       [marker_entry;
        lit "    public " ++ two_line_type ++ lit " getCounts() { return counts; }"])
     = [ lit "";
         lit "    // JavaBean-style getters";
         lit "    public Map<String,";
         lit "            Integer> getCounts() { return counts; }" ].
Proof.
  split; [vm_compute; reflexivity|]. split; vm_compute; reflexivity.
Qed.

Lemma C8_synthesized_block_witness :
  exists decls : list str,
    synthesize ascii_db (findall (accessor_pattern ascii_db) three_line_class)
    = Ok (marker_entry :: decls)
    /\ split_nl (join_nl (marker_entry :: decls))
       = [] :: (lit "    " ++ marker) :: decls
    /\ length (split_nl (join_nl (marker_entry :: decls)))
       = (2 + length (findall (accessor_pattern ascii_db) three_line_class))%nat.
Proof.
  destruct (C8_synthesized_block ascii_db three_line_class)
    as (decls & Hsyn & _ & _ & _ & _ & Hone).
  exists decls. split; [exact Hsyn|]. apply Hone.
  - intros c Hc [Heq | []]. simpl in Heq. unfold NL in Heq. lia.
  - apply List.Forall_forall. intros a Ha. vm_compute in Ha.
    destruct Ha as [<- | [<- | []]]; apply not_in_nl; reflexivity.
Defined.

(** C9 as stated fails.  The extractor reads one triple off
    [nested_type_class]; the declaration that the synthesizer emits for it
    holds, in its return type, an accessor in the three-line form, and
    yields a triple. *)
Lemma C9_getter_text_extracted :
  findall (accessor_pattern ascii_db) nested_type_class
    = [(nested_type, lit "name", lit "name")]
  /\ synthesize ascii_db [(nested_type, lit "name", lit "name")]
     = Ok [marker_entry; nested_getter]
  /\ findall (accessor_pattern ascii_db) nested_getter = [(lit "A", lit "b", lit "c")].
Proof. vm_compute. repeat split. Qed.

Lemma C9_matches_need_newline_witness :
  (exists pre s post head w tail,
     three_line_class = pre ++ s ++ post
     /\ accessor_text ascii_db s (lit "String") (lit "name") (lit "name")
     /\ s = head ++ ch "{" :: w ++ NL :: tail
     /\ forallb (isspace ascii_db) w = true)
  /\ findall (accessor_pattern ascii_db)
             (lit "    public String getName() { return name; }") = []
  /\ (Forall (fun d => findall (accessor_pattern ascii_db) d = [])
             (drop 2 scenario_block)
      /\ findall (accessor_pattern ascii_db)
                 (join_nl (marker_entry :: drop 2 scenario_block)) = []).
Proof.
  split; [|split].
  - apply (C9_matches_need_newline ascii_db three_line_class).
    vm_compute. left. reflexivity.
  - apply (C9_matches_need_newline ascii_db
             (lit "    public String getName() { return name; }")).
    vm_compute. intuition discriminate.
  - apply (proj2 (proj2 (C9_matches_need_newline ascii_db []))
             [(lit "String", lit "name", lit "name");
              (lit "boolean", lit "isActive", lit "active")]
             (marker_entry :: drop 2 scenario_block)).
    + vm_compute. reflexivity.
    + repeat constructor; vm_compute; intuition discriminate.
Defined.

Lemma C10_four_spaces_before_public_witness :
  (exists pre s post tail,
     three_line_class = pre ++ s ++ post
     /\ accessor_text ascii_db s (lit "boolean") (lit "isActive") (lit "active")
     /\ s = ch " " :: ch " " :: ch " " :: ch " " :: lit "public" ++ tail)
  /\ findall (accessor_pattern ascii_db)
             (join_nl [lit "public A b() {"; lit " return c;"; lit " }"]) = []
  /\ findall (accessor_pattern ascii_db)
             (join_nl [9 :: lit "public A b() {"; lit " return c;"; lit " }"]) = [].
Proof.
  split; [|split].
  - apply (C10_four_spaces_before_public ascii_db three_line_class).
    vm_compute. right. left. reflexivity.
  - apply (C10_four_spaces_before_public ascii_db
             (join_nl [lit "public A b() {"; lit " return c;"; lit " }"])).
    vm_compute. reflexivity.
  - apply (C10_four_spaces_before_public ascii_db
             (join_nl [9 :: lit "public A b() {"; lit " return c;"; lit " }"])).
    vm_compute. reflexivity.
Defined.

(** ** The further properties, on the scenarios *)

Lemma X1_no_triple_iff_no_accessor_text_witness :
  ~ starts_accessor ascii_db (lit "    public String getName() { return name; }").
Proof.
  apply (proj1 (X1_no_triple_iff_no_accessor_text ascii_db
                  (lit "    public String getName() { return name; }")))
    with (a := []).
  - vm_compute. reflexivity.
  - reflexivity.
Defined.

Lemma X4_alternate_name_differs_witness : lit "getName" <> lit "name".
Proof.
  apply (X4_alternate_name_differs ascii_db (lit "String") (lit "name") (lit "getName")).
  vm_compute. reflexivity.
Defined.

Lemma X5_synthesizer_index_error_witness :
  synthesize ascii_db [(lit "A", [], lit "c")] = Raise IndexError
  /\ exists decls,
       synthesize ascii_db [(lit "A", lit "b", lit "c")] = Ok (marker_entry :: decls)
       /\ length decls = 1%nat.
Proof.
  split.
  - apply (X5_synthesizer_index_error ascii_db [(lit "A", [], lit "c")]).
    constructor. reflexivity.
  - apply (X5_synthesizer_index_error ascii_db [(lit "A", lit "b", lit "c")]).
    repeat constructor. simpl. discriminate.
Defined.

Lemma X6_last_brace_stays_last_witness :
  exists i : nat,
    last_brace_idx ascii_db (split_nl three_line_class) = Some i
    /\ last_brace_idx ascii_db (split_nl three_line_class_out)
       = Some (i + length (split_nl (join_nl (marker_entry :: drop 2 scenario_block))))%nat
    /\ nth i (split_nl three_line_class) []
       = nth (i + length (split_nl (join_nl (marker_entry :: drop 2 scenario_block))))
             (split_nl three_line_class_out) [].
Proof.
  apply (X6_last_brace_stays_last ascii_db three_line_class
           (marker_entry :: drop 2 scenario_block) three_line_class_out).
  vm_compute. reflexivity.
Defined.



Lemma X9_run_summary_witness :
  exists (u : nat) (m1 : world) (events : list event),
    main ascii_db two_files_world
      = (Ok tt, emit (Print (msg_done (u, length (listed event_dirs two_files_world)))) m1)
    /\ (u <= length (listed event_dirs two_files_world))%nat
    /\ trace m1 = trace two_files_world ++ events /\ writes events = u
    /\ dom (files m1) = dom (files two_files_world)
    /\ (forall q, ~ In q (listed event_dirs two_files_world) ->
          files m1 !! q = files two_files_world !! q)
    /\ (forall q, In q (listed event_dirs two_files_world) ->
          exists line, report_of q line /\ In (Print line) events)
    /\ Forall (event_about (listed event_dirs two_files_world)) events.
Proof.
  apply (X9_run_summary ascii_db two_files_world).
  intros p Hp. vm_compute in Hp. destruct Hp as [<- | [<- | []]].
  - exists three_line_class.
    split; [vm_compute; reflexivity|]. split; [vm_compute; reflexivity|].
    right. vm_compute. reflexivity.
  - exists one_line_class.
    split; [vm_compute; reflexivity|]. split; [vm_compute; reflexivity|].
    right. vm_compute. reflexivity.
Defined.

Lemma X10_second_run_updates_nothing_witness :
  exists (m1 m2 : world) (events : list event),
    main ascii_db two_files_world = (Ok tt, m1)
    /\ main ascii_db m1
       = (Ok tt, emit (Print (msg_done (0%nat, length (listed event_dirs two_files_world)))) m2)
    /\ files m2 = files m1
    /\ trace m2 = trace m1 ++ events /\ writes events = 0%nat.
Proof.
  apply (X10_second_run_updates_nothing ascii_db two_files_world).
  intros p Hp. vm_compute in Hp. destruct Hp as [<- | [<- | []]].
  - exists three_line_class.
    split; [vm_compute; reflexivity|]. split; [vm_compute; reflexivity|].
    right. vm_compute. reflexivity.
  - exists one_line_class.
    split; [vm_compute; reflexivity|]. split; [vm_compute; reflexivity|].
    right. vm_compute. reflexivity.
Defined.

Lemma X11_first_failure_aborts_witness :
  exists (done : list str) (p : str) (rest : list str) (e : exn)
         (m1 : world) (events : list event),
    listed event_dirs missing_file_world = done ++ p :: rest
    /\ (forall q, In q done -> callable ascii_db missing_file_world q)
    /\ raises ascii_db missing_file_world p e
    /\ main ascii_db missing_file_world = (Raise e, m1)
    /\ (forall q, In q done -> settled ascii_db m1 q)
    /\ (forall q, ~ In q done -> files m1 !! q = files missing_file_world !! q)
    /\ trace m1 = trace missing_file_world ++ events
    /\ (forall q, In q done ->
          exists line, report_of q line /\ In (Print line) events)
    /\ Forall (event_about done) events
    /\ (forall c, ~ In (Print (msg_done c)) events).
Proof.
  apply (X11_first_failure_aborts ascii_db missing_file_world).
  apply List.Exists_exists. exists C_java. split.
  - vm_compute. right. left. reflexivity.
  - intros (raw & Hraw & _). vm_compute in Hraw. discriminate Hraw.
Defined.

Lemma X12_every_accessor_gets_a_getter_witness :
  exists new_content,
    In (Write E_java new_content)
       (trace (rewritten E_java three_line_class_out (only_file three_line_class)))
    /\ files (rewritten E_java three_line_class_out (only_file three_line_class)) !! E_java
       = Some (Utf8 (to_linesep (linesep (only_file three_line_class)) new_content))
    /\ forall t n f,
         In (t, n, f) (findall (accessor_pattern ascii_db) three_line_class) ->
         exists g, getter_name ascii_db t n = Ok g
                   /\ contains (getter_decl t g f) new_content = true
                   /\ contains
                        (to_linesep (linesep (only_file three_line_class))
                                    (getter_decl t g f))
                        (to_linesep (linesep (only_file three_line_class)) new_content)
                      = true.
Proof.
  apply (X12_every_accessor_gets_a_getter ascii_db E_java three_line_class
           (only_file three_line_class)).
  - vm_compute. reflexivity.
  - vm_compute. reflexivity.
Defined.

Lemma X13_no_directory_witness :
  main ascii_db (only_file three_line_class)
  = (Ok tt,
     World (files (only_file three_line_class)) (can_read (only_file three_line_class))
           (can_write (only_file three_line_class)) (linesep (only_file three_line_class))
           (dirs (only_file three_line_class))
           (trace (only_file three_line_class)
            ++ List.map (fun d => Print (lit "Directory not found: " ++ d)) event_dirs
            ++ [Print (msg_done (0%nat, 0%nat))])).
Proof.
  apply (X13_no_directory ascii_db (only_file three_line_class)).
  intros d Hd. vm_compute. reflexivity.
Defined.
